(** * In-memory job queue and cron-driven processing pass

    Shallow embedding of [MemoryQueueService]
    (src/common/queue/memory.queue.service.ts) and of
    [CronService.processQueue] (the cron service), with the properties of
    the queue store and of one processing pass.

    Conventions of the embedding:
    - the private [Map<string, Job[]>] is a [gmap string (list Job.t)];
      an array obtained from [getQueue] is a live reference, so every
      read of [queue[index]] or [queue.length] is a read of the current
      contents of the store under that name, and [push], [splice] and
      [queue[i] = ...] are writes to it;
    - a JavaScript number that holds a counter or a time is the [Z] it
      stands for; [retries--] rounds its result as doubles do
      ([Double.minus_one]); fractions, NaN and the infinities have no
      counterpart here;
    - [async] methods are run to completion one after the other: nothing
      else touches the store while a call is awaited;
    - log calls are not modelled, except where building the message reads
      [queue[index]] and can therefore raise. *)

From stdpp Require Import gmap strings list fin_maps.
From Stdlib Require Import ZArith.

Local Open Scope Z_scope.

(** ** Data model *)

(** ** Numbers *)

(** A JavaScript number that counts is a double holding an integer; [Z]
    carries its value.  Arithmetic on it is the arithmetic of doubles:
    the exact result, rounded to the nearest double. *)
Module Double.

(** Every integer up to this one in absolute value is a double. *)
Definition exact_bound : Z := 2 ^ 53.

(** The double nearest to an integer: the integer itself while it has at
    most 53 significant bits, otherwise the nearest multiple of the
    weight of its 53rd bit, a tie going to the even significand.  (No
    overflow: the results this file rounds lie between two doubles.) *)
Definition nearest (z : Z) : Z :=
  let a := Z.abs z in
  if a <=? exact_bound then z
  else
    let ulp := 2 ^ (Z.log2 a - 52) in
    let significand := a / ulp in
    let rest := a mod ulp in
    let rounded :=
      if 2 * rest <? ulp then significand
      else if ulp <? 2 * rest then significand + 1
      else if Z.even significand then significand
      else significand + 1 in
    Z.sgn z * (rounded * ulp).

(** [n - 1] on doubles. *)
Definition minus_one (n : Z) : Z := nearest (n - 1).

End Double.

(** Modelled from the spec: the declaration of [PlatformType]
    (src/etaRegister/dtos/school.query.dto) is missing; the spec names the
    two target domains ETA and LIDER. *)
Inductive PlatformType := ETA | LIDER.

Definition PlatformType_str (p : PlatformType) : string :=
  match p with ETA => "ETA" | LIDER => "LIDER" end.

(** Modelled from the spec: the DTO declarations (src/etaRegister/dtos) are
    missing; the payload carries a MAC-address correlation key, read by
    the code as [data.macAddress], and further fields the queue never
    inspects. *)
Record Dto := { macAddress : string; fields : list (string * string) }.

Module JobData.
Record t := {
  data : Dto;
  targetRequestDomain : PlatformType;
  process : string;
  key : option string
}.
End JobData.

Module Job.
Record t := {
  id : string;
  data : JobData.t;
  retries : Z;
  delay : Z;
  timestamp : Z
}.

(** [Partial<Job>]: each field present or absent. *)
Record partial := {
  p_id : option string;
  p_data : option JobData.t;
  p_retries : option Z;
  p_delay : option Z;
  p_timestamp : option Z
}.

Definition no_fields : partial :=
  {| p_id := None; p_data := None; p_retries := None;
     p_delay := None; p_timestamp := None |}.

(** The object literal [{ retries: n }]. *)
Definition only_retries (n : Z) : partial :=
  {| p_id := None; p_data := None; p_retries := Some n;
     p_delay := None; p_timestamp := None |}.

(** The spread [{ ...job, ...updatedJobData }]. *)
Definition merge (upd : partial) (job : t) : t :=
  {| id := default (id job) (p_id upd);
     data := default (data job) (p_data upd);
     retries := default (retries job) (p_retries upd);
     delay := default (delay job) (p_delay upd);
     timestamp := default (timestamp job) (p_timestamp upd) |}.

(** [job.retries--] on the object held by the array. *)
Definition decrement (job : t) : t :=
  {| id := id job; data := data job;
     retries := Double.minus_one (retries job);
     delay := delay job; timestamp := timestamp job |}.

Definition has_id (jobId : string) (job : t) : bool :=
  String.eqb (id job) jobId.
End Job.

(** [Array.prototype.findIndex], with [None] for the result [-1]. *)
Fixpoint findIndex {A : Type} (p : A -> bool) (l : list A) : option nat :=
  match l with
  | [] => None
  | x :: l' => if p x then Some 0%nat else S <$> findIndex p l'
  end.

(** [QUEUE_NAMES_ENUM.ETA_LIDER_TASK] *)
Definition ETA_LIDER_TASK : string := "etaLiderTask".

Abbreviation Store := (gmap string (list Job.t)).

(** The contents of the array registered under a name ([[]] when the name
    is not registered yet). *)
Definition queue_of (st : Store) (queueName : string) : list Job.t :=
  default [] (st !! queueName).

Definition ids (q : list Job.t) : list string := map Job.id q.

(** ** MemoryQueueService *)

(** [JSON.stringify] on a job payload and the hex SHA-256 digest of
    [crypto]: library functions, kept abstract. *)
Class Hashing := {
  stringify : JobData.t -> string;
  sha256_hex : string -> string
}.

Section QueueService.

Context `{Hashing}.

Definition getQueue (queueName : string) (st : Store) : list Job.t * Store :=
  match st !! queueName with
  | Some queue => (queue, st)
  | None => ([], <[queueName := []]> st)
  end.

Definition generateJobId (queueName : string) (jobData : JobData.t) : string :=
  let jobDataHash := sha256_hex (stringify jobData) in
  queueName +:+ "-" +:+ JobData.process jobData
    +:+ "-" +:+ PlatformType_str (JobData.targetRequestDomain jobData)
    +:+ "-" +:+ macAddress (JobData.data jobData)
    +:+ "-" +:+ jobDataHash.

(** [now] is the reading of [Date.now()]. *)
Definition createJob (queueName : string) (jobData : JobData.t)
    (retries delay now : Z) : Job.t :=
  {| Job.id := generateJobId queueName jobData;
     Job.data := jobData;
     Job.retries := retries;
     Job.delay := delay;
     Job.timestamp := now |}.

Definition hasJob (queueName jobId : string) (st : Store) : bool * Store :=
  let '(queue, st) := getQueue queueName st in
  (existsb (Job.has_id jobId) queue, st).

(** [queue.push(job)] on the live array of [queueName]. *)
Definition push (queueName : string) (job : Job.t) (st : Store) : Store :=
  <[queueName := queue_of st queueName ++ [job]]> st.

Definition addJob (queueName : string) (jobData : JobData.t)
    (retries delay now : Z) (st : Store) : Store :=
  let job := createJob queueName jobData retries delay now in
  let '(_, st) := getQueue queueName st in
  let '(found, st) := hasJob queueName (Job.id job) st in
  if found then st else push queueName job st.

Definition getNextJob (queueName : string) (st : Store)
    : option Job.t * Store :=
  let '(queue, st) := getQueue queueName st in
  if (length queue =? 0)%nat then (None, st) else (queue !! 0%nat, st).

Definition dequeueJob (queueName jobId : string) (st : Store) : Store :=
  let '(queue, st) := getQueue queueName st in
  match findIndex (Job.has_id jobId) queue with
  | Some jobIndex => <[queueName := delete jobIndex queue]> st
  | None => st
  end.

Definition updateJob (queueName jobId : string) (updatedJobData : Job.partial)
    (st : Store) : bool * Store :=
  let '(queue, st) := getQueue queueName st in
  match findIndex (Job.has_id jobId) queue with
  | None => (false, st)
  | Some jobIndex =>
      (true, <[queueName := alter (Job.merge updatedJobData) jobIndex queue]> st)
  end.

(** The operations a producer or a diagnostic caller can issue, and
    their effect on the store (results are dropped). *)
Inductive Op :=
  | OpAddJob (queueName : string) (jobData : JobData.t) (retries delay now : Z)
  | OpDequeueJob (queueName jobId : string)
  | OpUpdateJob (queueName jobId : string) (upd : Job.partial)
  | OpGetNextJob (queueName : string)
  | OpHasJob (queueName jobId : string).

Definition apply_op (st : Store) (op : Op) : Store :=
  match op with
  | OpAddJob queueName jobData retries delay now =>
      addJob queueName jobData retries delay now st
  | OpDequeueJob queueName jobId => dequeueJob queueName jobId st
  | OpUpdateJob queueName jobId upd => (updateJob queueName jobId upd st).2
  | OpGetNextJob queueName => (getNextJob queueName st).2
  | OpHasJob queueName jobId => (hasJob queueName jobId st).2
  end.

Definition run_ops (ops : list Op) (st : Store) : Store :=
  fold_left apply_op ops st.

End QueueService.

(** Invariant I1: within every queue the ids are pairwise distinct. *)
Definition unique_ids (st : Store) : Prop :=
  forall queueName, NoDup (ids (queue_of st queueName)).

(** An operation that does not give a job another id: every operation
    except an [updateJob] whose partial fields carry a different [id]. *)
Definition keeps_id (op : Op) : bool :=
  match op with
  | OpUpdateJob _ jobId upd =>
      match Job.p_id upd with
      | None => true
      | Some newId => String.eqb newId jobId
      end
  | _ => true
  end.

(** ** CronService *)

(** The three calls a pass makes on [EtaLiderService], each with the
    arguments it is given. *)
Inductive Request :=
  | getSchoolByMacAddress (mac : string) (domain : PlatformType)
  | updateEtaSchoolInfoByMacAddress (dto : Dto)
  | updateLiderSchoolByMacAddress (dto : Dto).

(** What a pass does towards its collaborators, in order. *)
Inductive Event :=
  | EvDispatch (job : Job.t)
  | EvDequeueJob (queueName jobId : string)
  | EvUpdateJob (queueName jobId : string) (upd : Job.partial).

(** A raised value: the error of a failed remote call, or the [TypeError]
    of reading a property of [undefined]. *)
Inductive Exn :=
  | RemoteOperationError (message : string)
  | TypeError.

Inductive Completion (A : Type) :=
  | Normal (a : A)
  | Throw (e : Exn).
Arguments Normal {A} a.
Arguments Throw {A} e.

(** The branch taken on [data.process] and [data.targetRequestDomain]. *)
Definition request_of (d : JobData.t) : Request :=
  if String.eqb (JobData.process d) "GET" then
    getSchoolByMacAddress (macAddress (JobData.data d))
                          (JobData.targetRequestDomain d)
  else
    match JobData.targetRequestDomain d with
    | ETA => updateEtaSchoolInfoByMacAddress (JobData.data d)
    | LIDER => updateLiderSchoolByMacAddress (JobData.data d)
    end.

(** The remote systems behind [EtaLiderService]: a state and the effect
    of one call on it, [Some message] when the call raises. *)
Class Remote := {
  World : Type;
  perform : Request -> World -> option string * World
}.

Section CronService.

Context `{Remote}.

Record Sys := {
  queues : Store;
  world : World;
  trace : list Event
}.

(** Computations of a pass: state passing with exceptions. *)
Definition Act (A : Type) : Type := Sys -> Completion A * Sys.

Definition ret {A} (a : A) : Act A := fun s => (Normal a, s).
Definition throw {A} (e : Exn) : Act A := fun s => (Throw e, s).
Definition bind {A B} (m : Act A) (k : A -> Act B) : Act B :=
  fun s =>
    match m s with
    | (Normal a, s') => k a s'
    | (Throw e, s') => (Throw e, s')
    end.
Definition tryCatch {A} (body : Act A) (handler : Exn -> Act A) : Act A :=
  fun s =>
    match body s with
    | (Normal a, s') => (Normal a, s')
    | (Throw e, s') => handler e s'
    end.

Notation "x <- m ;; k" := (bind m (fun x => k))
  (at level 100, m at next level, k at level 200, right associativity).
Notation "m ;; k" := (bind m (fun _ => k))
  (at level 100, k at level 200, right associativity).

Definition emit (e : Event) : Act unit :=
  fun s => (Normal tt,
            {| queues := queues s; world := world s; trace := trace s ++ [e] |}).

Definition on_store {A} (f : Store -> A * Store) : Act A :=
  fun s => let '(a, st) := f (queues s) in
           (Normal a, {| queues := st; world := world s; trace := trace s |}).

(** [queue.length] of the live array. *)
Definition queue_length : Act nat :=
  fun s => (Normal (length (queue_of (queues s) ETA_LIDER_TASK)), s).

(** [queue[index].<field>]: raises when [queue[index]] is [undefined]. *)
Definition at_index (index : nat) : Act Job.t :=
  fun s =>
    match queue_of (queues s) ETA_LIDER_TASK !! index with
    | Some job => (Normal job, s)
    | None => (Throw TypeError, s)
    end.

(** [queue[index].retries--] *)
Definition decrement_at (index : nat) : Act unit :=
  _ <- at_index index ;;
  on_store (fun st =>
    (tt, <[ETA_LIDER_TASK := alter Job.decrement index (queue_of st ETA_LIDER_TASK)]> st)).

(** The awaited call on [EtaLiderService]. *)
Definition dispatch (job : Job.t) : Act unit :=
  emit (EvDispatch job) ;;
  fun s =>
    let '(r, w) := perform (request_of (Job.data job)) (world s) in
    let s' := {| queues := queues s; world := w; trace := trace s |} in
    match r with
    | None => (Normal tt, s')
    | Some message => (Throw (RemoteOperationError message), s')
    end.

Definition call_dequeueJob (queueName jobId : string) : Act unit :=
  emit (EvDequeueJob queueName jobId) ;;
  on_store (fun st => (tt, dequeueJob queueName jobId st)).

Definition call_updateJob (queueName jobId : string) (upd : Job.partial)
    : Act bool :=
  emit (EvUpdateJob queueName jobId upd) ;;
  on_store (updateJob queueName jobId upd).

(** The body of the [for] loop: the [try] block and its [catch]. *)
Definition process_index (index : nat) : Act unit :=
  let queueName := ETA_LIDER_TASK in
  tryCatch
    (job <- at_index index ;;
     dispatch job ;;
     job <- at_index index ;;
     call_dequeueJob queueName (Job.id job) ;;
     (* the success message reads queue[index].id *)
     _ <- at_index index ;;
     ret tt)
    (fun error =>
     job <- at_index index ;;
     if 0 <? Job.retries job then
       decrement_at index ;;
       job <- at_index index ;;
       call_updateJob queueName (Job.id job) (Job.only_retries (Job.retries job)) ;;
       (* the warning reads queue[index].retries *)
       _ <- at_index index ;;
       ret tt
     else
       (* the message reads queue[index].id *)
       job <- at_index index ;;
       call_dequeueJob queueName (Job.id job)).

(** [for (let index = 0; index < queue.length; index++)], the bound
    read again before every round. [None] only when [fuel] runs out. *)
Fixpoint loop (fuel index : nat) (s : Sys) : option (Completion unit * Sys) :=
  if (index <? length (queue_of (queues s) ETA_LIDER_TASK))%nat then
    match fuel with
    | O => None
    | S fuel' =>
        match process_index index s with
        | (Normal _, s') => loop fuel' (S index) s'
        | (Throw e, s') => Some (Throw e, s')
        end
    end
  else Some (Normal tt, s).

Definition processQueue (s : Sys) : option (Completion unit * Sys) :=
  match on_store (getQueue ETA_LIDER_TASK) s with
  | (Normal queue, s') =>
      if (length queue =? 0)%nat then Some (Normal tt, s')
      else loop (length queue) 0 s'
  | (Throw e, s') => Some (Throw e, s')
  end.

(** One pass over a store, from an empty trace. *)
Definition run_pass (st : Store) (w : World) : option (Completion unit * Sys) :=
  processQueue {| queues := st; world := w; trace := [] |}.

End CronService.


(** ** Forgetting the delay field *)

Definition erase_delay (job : Job.t) : Job.t :=
  {| Job.id := Job.id job; Job.data := Job.data job;
     Job.retries := Job.retries job; Job.delay := 0;
     Job.timestamp := Job.timestamp job |}.

Definition erase_store (st : Store) : Store := map erase_delay <$> st.

Definition erase_event (e : Event) : Event :=
  match e with
  | EvDispatch job => EvDispatch (erase_delay job)
  | EvDequeueJob queueName jobId => EvDequeueJob queueName jobId
  | EvUpdateJob queueName jobId upd => EvUpdateJob queueName jobId upd
  end.

Definition erase_sys `{Remote} (s : Sys) : Sys :=
  {| queues := erase_store (queues s);
     world := world s;
     trace := map erase_event (trace s) |}.

Definition erase_result `{Remote} {A} (r : Completion A * Sys)
    : Completion A * Sys :=
  (r.1, erase_sys r.2).

(** The jobs a trace dispatched, in order. *)
Definition dispatched (tr : list Event) : list Job.t :=
  omap (fun e => match e with EvDispatch job => Some job | _ => None end) tr.

(** Successive passes, each from the store and the remote state the one
    before left, however that one completed: the schedule fires again
    after a pass that raised ([None] only if a pass ran out of fuel). *)
Fixpoint run_passes `{Remote} (n : nat) (st : Store) (w : World)
    : option (Store * World) :=
  match n with
  | O => Some (st, w)
  | S n' =>
      match run_pass st w with
      | Some (_, s') => run_passes n' (queues s') (world s')
      | None => None
      end
  end.

(** The queue of the cron service after [n] passes. *)
Definition queue_after `{Remote} (n : nat) (st : Store) (w : World)
    : option (list Job.t) :=
  match run_passes n st w with
  | Some (st', _) => Some (queue_of st' ETA_LIDER_TASK)
  | None => None
  end.

(** The elements at positions 0, 2, 4, ... of a list. *)
Fixpoint every_other {A : Type} (l : list A) : list A :=
  match l with
  | x :: _ :: l' => x :: every_other l'
  | _ => l
  end.

(** A job with its retries set to [n] and every other field as it is. *)
Definition with_retries (n : Z) (job : Job.t) : Job.t :=
  {| Job.id := Job.id job; Job.data := Job.data job; Job.retries := n;
     Job.delay := Job.delay job; Job.timestamp := Job.timestamp job |}.

(** Successive passes as [run_passes], with the jobs dispatched so far,
    in the order of the calls. *)
Fixpoint dispatched_over `{Remote} (n : nat) (st : Store) (w : World)
    : option (list Job.t) :=
  match n with
  | O => Some []
  | S n' =>
      match run_pass st w with
      | Some (_, s') =>
          match dispatched_over n' (queues s') (world s') with
          | Some later => Some (dispatched (trace s') ++ later)
          | None => None
          end
      | None => None
      end
  end.

(** ** Forgetting the time of creation *)

Definition forget_timestamp (job : Job.t) : Job.t :=
  {| Job.id := Job.id job; Job.data := Job.data job;
     Job.retries := Job.retries job; Job.delay := Job.delay job;
     Job.timestamp := 0 |}.

Definition forget_timestamps (st : Store) : Store :=
  map forget_timestamp <$> st.

(** ** Concrete jobs and remote systems used in the examples *)

Module Demo.

Definition payload (process : string) (domain : PlatformType) (mac : string)
    : JobData.t :=
  {| JobData.data := {| macAddress := mac; fields := [] |};
     JobData.targetRequestDomain := domain;
     JobData.process := process;
     JobData.key := None |}.

Definition job (jobId : string) (jobData : JobData.t) (retries delay : Z)
    : Job.t :=
  {| Job.id := jobId; Job.data := jobData; Job.retries := retries;
     Job.delay := delay; Job.timestamp := 1730000000000 |}.

Definition mac_of (r : Request) : string :=
  match r with
  | getSchoolByMacAddress mac _ => mac
  | updateEtaSchoolInfoByMacAddress dto => macAddress dto
  | updateLiderSchoolByMacAddress dto => macAddress dto
  end.

(** Remote systems that reject every call about one of the MAC
    addresses in [bad] and accept the others; the state counts calls. *)
Definition rejecting (bad : list string) : Remote :=
  {| World := nat;
     perform r calls :=
       (if existsb (String.eqb (mac_of r)) bad
        then Some "remote call failed" else None,
        S calls) |}.

Definition macA : string := "11:22:33:44:55:66".
Definition macB : string := "AA:BB:CC:DD:EE:FF".

Definition payloadA : JobData.t := payload "UPDATE" LIDER macA.
Definition payloadB : JobData.t := payload "GET" ETA macB.

(** A store whose only queue is the one the cron service reads. *)
Definition holding (q : list Job.t) : Store := {[ ETA_LIDER_TASK := q ]}.

(** Stand-ins for the two library functions, for the examples that go
    through [addJob]. *)
Definition plain : Hashing :=
  {| stringify d :=
       JobData.process d +:+ ","
         +:+ PlatformType_str (JobData.targetRequestDomain d)
         +:+ "," +:+ macAddress (JobData.data d);
     sha256_hex text := text |}.

(** Jobs as [addJob] would have created them on the cron queue. *)
Definition jobA (retries : Z) : Job.t :=
  createJob (H := plain) ETA_LIDER_TASK payloadA retries 0 1730000000000.
Definition jobB (retries : Z) : Job.t :=
  createJob (H := plain) ETA_LIDER_TASK payloadB retries 0 1730000000000.

Definition macC : string := "0A:1B:2C:3D:4E:5F".
Definition payloadC : JobData.t := payload "UPDATE" ETA macC.
Definition jobC (retries : Z) : Job.t :=
  createJob (H := plain) ETA_LIDER_TASK payloadC retries 0 1730000000000.

(** The state in which the first pass finds a queue, in front of remote
    systems rejecting [bad]. *)
Definition at_start (bad : list string) (q : list Job.t)
    : @Sys (rejecting bad) :=
  @Build_Sys (rejecting bad) (holding q) 0%nat [].

End Demo.

(** * Properties *)

(** ** Doubles that count *)

(** In the range where every integer is a double, [n - 1] is exact. *)
Lemma minus_one_exact (n : Z) :
  - Double.exact_bound < n <= Double.exact_bound ->
  Double.minus_one n = n - 1.
Proof.
  unfold Double.minus_one, Double.nearest, Double.exact_bound.
  change (2 ^ 53) with 9007199254740992. intros Hn.
  assert (Hle : (Z.abs (n - 1) <=? 9007199254740992) = true)
    by (apply Z.leb_le; lia).
  cbv zeta. by rewrite Hle.
Qed.

Lemma decrement_exact (job : Job.t) :
  - Double.exact_bound < Job.retries job <= Double.exact_bound ->
  Job.decrement job = with_retries (Job.retries job - 1) job.
Proof.
  intros Hn. unfold Job.decrement, with_retries. by rewrite minus_one_exact.
Qed.

(** Past that range it is not: [2^54 - 1] is no double, and the tie goes
    back to [2^54]. *)
Example minus_one_at_2_54 : Double.minus_one (2 ^ 54) = 2 ^ 54.
Proof. reflexivity. Qed.

(** ** Arrays and the queue map *)

Lemma findIndex_Some {A} (p : A -> bool) (l : list A) (i : nat) :
  findIndex p l = Some i ->
  exists x, l !! i = Some x /\ p x = true /\
            forall k y, (k < i)%nat -> l !! k = Some y -> p y = false.
Proof.
  revert i. induction l as [|a l IH]; intros i; simpl; [done|].
  destruct (p a) eqn:Hpa.
  - intros [= <-]. exists a. split; [done|]. split; [done|]. intros; lia.
  - destruct (findIndex p l) as [j|]; simpl; [|done].
    intros [= <-]. destruct (IH j eq_refl) as (x & Hx & Hpx & Hlt).
    exists x. split; [done|]. split; [done|].
    intros [|k] y Hk; simpl; [by intros [= <-]|].
    apply Hlt. lia.
Qed.

Lemma findIndex_None {A} (p : A -> bool) (l : list A) :
  findIndex p l = None <-> existsb p l = false.
Proof.
  induction l as [|a l IH]; simpl; [done|].
  destruct (p a); simpl; [done|].
  rewrite <- IH. destruct (findIndex p l); simpl; done.
Qed.

Lemma existsb_has_id (jobId : string) (q : list Job.t) :
  existsb (Job.has_id jobId) q = true <-> jobId ∈ ids q.
Proof.
  unfold ids. rewrite existsb_exists, list_elem_of_fmap.
  split.
  - intros (j & Hin & Hj). exists j. apply String.eqb_eq in Hj.
    split; [done|]. by apply list_elem_of_In.
  - intros (j & -> & Hin). exists j. split; [by apply list_elem_of_In|].
    apply String.eqb_refl.
Qed.

Lemma has_id_absent (jobId : string) (q : list Job.t) :
  existsb (Job.has_id jobId) q = false <-> jobId ∉ ids q.
Proof.
  rewrite <- existsb_has_id. by destruct (existsb _ q).
Qed.

(** With distinct ids, the search by id finds a job where it stands. *)
Lemma findIndex_unique (q : list Job.t) (index : nat) (job : Job.t) :
  NoDup (ids q) -> q !! index = Some job ->
  findIndex (Job.has_id (Job.id job)) q = Some index.
Proof.
  revert index. induction q as [|a q IH]; intros index Hnd Hq; [done|].
  simpl in Hnd. apply NoDup_cons in Hnd as [Hnotin Hnd].
  destruct index as [|index]; simpl in *.
  - injection Hq as ->. unfold Job.has_id. by rewrite String.eqb_refl.
  - destruct (Job.has_id (Job.id job) a) eqn:Ha.
    + apply String.eqb_eq in Ha. exfalso. apply Hnotin. rewrite Ha.
      apply list_elem_of_fmap. exists job. split; [done|].
      by eapply list_elem_of_lookup_2.
    + by rewrite (IH index Hnd Hq).
Qed.

Lemma queue_of_insert (st : Store) (n m : string) (q : list Job.t) :
  queue_of (<[n := q]> st) m = if decide (n = m) then q else queue_of st m.
Proof.
  unfold queue_of. destruct (decide (n = m)) as [->|Hne].
  - by rewrite lookup_insert_eq.
  - by rewrite lookup_insert_ne.
Qed.

Lemma queue_of_insert_eq (st : Store) (n : string) (q : list Job.t) :
  queue_of (<[n := q]> st) n = q.
Proof. rewrite queue_of_insert. by rewrite decide_True. Qed.

Lemma queue_of_insert_ne (st : Store) (n m : string) (q : list Job.t) :
  n <> m -> queue_of (<[n := q]> st) m = queue_of st m.
Proof. intros. rewrite queue_of_insert. by rewrite decide_False. Qed.

(** [getQueue] returns the live contents and registers the name. *)
Lemma getQueue_eq (n : string) (st : Store) :
  getQueue n st = (queue_of st n, <[n := queue_of st n]> st).
Proof.
  unfold getQueue, queue_of. destruct (st !! n) as [q|] eqn:Hq; simpl; [|done].
  by rewrite insert_id.
Qed.

Lemma insert_queue_of_registered (n : string) (st : Store) :
  is_Some (st !! n) -> <[n := queue_of st n]> st = st.
Proof. intros [q Hq]. unfold queue_of. rewrite Hq. simpl. by apply insert_id. Qed.

Lemma insert_queue_of_contents (n m : string) (st : Store) :
  queue_of (<[n := queue_of st n]> st) m = queue_of st m.
Proof. rewrite queue_of_insert. by case_decide; subst. Qed.

Lemma dequeueJob_eq (n jobId : string) (st : Store) :
  dequeueJob n jobId st =
  match findIndex (Job.has_id jobId) (queue_of st n) with
  | Some jobIndex => <[n := delete jobIndex (queue_of st n)]> st
  | None => <[n := queue_of st n]> st
  end.
Proof.
  unfold dequeueJob. rewrite getQueue_eq.
  destruct (findIndex _ _); [|done]. by rewrite insert_insert_eq.
Qed.

Lemma updateJob_eq (n jobId : string) (upd : Job.partial) (st : Store) :
  updateJob n jobId upd st =
  match findIndex (Job.has_id jobId) (queue_of st n) with
  | Some jobIndex =>
      (true, <[n := alter (Job.merge upd) jobIndex (queue_of st n)]> st)
  | None => (false, <[n := queue_of st n]> st)
  end.
Proof.
  unfold updateJob. rewrite getQueue_eq.
  destruct (findIndex _ _); [|done]. by rewrite insert_insert_eq.
Qed.

Lemma hasJob_eq (n jobId : string) (st : Store) :
  hasJob n jobId st =
  (existsb (Job.has_id jobId) (queue_of st n), <[n := queue_of st n]> st).
Proof. unfold hasJob. by rewrite getQueue_eq. Qed.

Lemma getNextJob_eq (n : string) (st : Store) :
  getNextJob n st = (queue_of st n !! 0%nat, <[n := queue_of st n]> st).
Proof.
  unfold getNextJob. rewrite getQueue_eq.
  by destruct (queue_of st n).
Qed.

(** ** The queue store *)

Section StoreProperties.

Context `{Hashing}.

Lemma addJob_eq (n : string) (d : JobData.t) (r dl now : Z) (st : Store) :
  addJob n d r dl now st =
  if existsb (Job.has_id (generateJobId n d)) (queue_of st n)
  then <[n := queue_of st n]> st
  else <[n := queue_of st n ++ [createJob n d r dl now]]> st.
Proof.
  unfold addJob. rewrite getQueue_eq, hasJob_eq. simpl.
  rewrite queue_of_insert_eq, insert_insert_eq.
  destruct (existsb _ _); [done|].
  unfold push. by rewrite queue_of_insert_eq, insert_insert_eq.
Qed.

(** After an [addJob] the queue is registered and holds the id. *)
Lemma addJob_present (n : string) (d : JobData.t) (r dl now : Z) (st : Store) :
  let st1 := addJob n d r dl now st in
  is_Some (st1 !! n) /\
  existsb (Job.has_id (generateJobId n d)) (queue_of st1 n) = true.
Proof.
  simpl. rewrite addJob_eq.
  destruct (existsb _ (queue_of st n)) eqn:Hex.
  - rewrite lookup_insert_eq, queue_of_insert_eq. eauto.
  - rewrite lookup_insert_eq, queue_of_insert_eq. split; [eauto|].
    rewrite existsb_app. simpl. unfold Job.has_id at 2. simpl.
    rewrite String.eqb_refl. by rewrite orb_true_r.
Qed.

(** C5. A second [addJob] on the same queue name with the same payload,
    whatever its retries, delay and time, returns the store as the
    first call left it; started on the empty store, the queue then holds
    one job, the one the first call created. *)
Theorem addJob_twice_is_addJob_once
    (st : Store) (queueName : string) (jobData : JobData.t)
    (retries1 delay1 now1 retries2 delay2 now2 : Z) :
  addJob queueName jobData retries2 delay2 now2
      (addJob queueName jobData retries1 delay1 now1 st)
    = addJob queueName jobData retries1 delay1 now1 st
  /\ queue_of
       (addJob queueName jobData retries2 delay2 now2
          (addJob queueName jobData retries1 delay1 now1 ∅)) queueName
     = [createJob queueName jobData retries1 delay1 now1].
Proof.
  assert (Hnoop : forall st0,
    addJob queueName jobData retries2 delay2 now2
        (addJob queueName jobData retries1 delay1 now1 st0)
      = addJob queueName jobData retries1 delay1 now1 st0).
  { intros st0.
    destruct (addJob_present queueName jobData retries1 delay1 now1 st0)
      as [Hreg Hin].
    rewrite (addJob_eq _ _ retries2). rewrite Hin.
    by apply insert_queue_of_registered. }
  split; [apply Hnoop|].
  assert (Hempty : queue_of ∅ queueName = []).
  { unfold queue_of. by rewrite lookup_empty. }
  rewrite Hnoop, addJob_eq, Hempty. simpl. by rewrite queue_of_insert_eq.
Qed.

(** C7, as the code has it. [updateJob] leaves every other queue alone.
    When the id is in the queue it answers [true]; the first job
    carrying the id is replaced, where it stands, by a job that has,
    field by field, the value the partial fields give when they give
    one and the value of the old job otherwise; the length and every
    other position are as before.  When the id is not in the queue it
    answers [false] and the contents of every queue are as before; the
    store is the same when the queue name was registered already, and
    otherwise gains that name with an empty queue. *)
Theorem updateJob_merges_in_place
    (st : Store) (queueName jobId : string) (upd : Job.partial) :
  let q := queue_of st queueName in
  let result := updateJob queueName jobId upd st in
  let q' := queue_of result.2 queueName in
  (forall other, other <> queueName ->
     queue_of result.2 other = queue_of st other) /\
  (jobId ∈ ids q ->
     result.1 = true /\
     exists index job merged,
       q !! index = Some job /\ Job.id job = jobId /\
       (forall k earlier, (k < index)%nat -> q !! k = Some earlier ->
          Job.id earlier <> jobId) /\
       q' !! index = Some merged /\
       Job.id merged
         = match Job.p_id upd with Some v => v | None => Job.id job end /\
       Job.data merged
         = match Job.p_data upd with Some v => v | None => Job.data job end /\
       Job.retries merged
         = match Job.p_retries upd with
           | Some v => v | None => Job.retries job end /\
       Job.delay merged
         = match Job.p_delay upd with Some v => v | None => Job.delay job end /\
       Job.timestamp merged
         = match Job.p_timestamp upd with
           | Some v => v | None => Job.timestamp job end /\
       length q' = length q /\
       (forall k, k <> index -> q' !! k = q !! k)) /\
  (jobId ∉ ids q ->
     result.1 = false /\
     (forall name, queue_of result.2 name = queue_of st name) /\
     (is_Some (st !! queueName) -> result.2 = st) /\
     (st !! queueName = None -> result.2 = <[queueName := []]> st)).
Proof.
  cbv zeta. rewrite updateJob_eq.
  destruct (findIndex (Job.has_id jobId) (queue_of st queueName))
    as [index|] eqn:Hfind; cbn [fst snd].
  - split; [|split].
    + intros other Hne. by rewrite queue_of_insert_ne.
    + intros _. split; [done|].
      destruct (findIndex_Some _ _ _ Hfind) as (job & Hjob & Hid & Hfirst).
      exists index, job, (Job.merge upd job). rewrite queue_of_insert_eq.
      split; [done|]. split; [by apply String.eqb_eq|].
      split.
      { intros k earlier Hk Hearlier Heq.
        specialize (Hfirst k earlier Hk Hearlier).
        unfold Job.has_id in Hfirst. rewrite Heq, String.eqb_refl in Hfirst.
        done. }
      split; [by rewrite list_lookup_alter_eq, Hjob|].
      unfold Job.merge. cbn [Job.id Job.data Job.retries Job.delay Job.timestamp].
      split; [by destruct (Job.p_id upd)|].
      split; [by destruct (Job.p_data upd)|].
      split; [by destruct (Job.p_retries upd)|].
      split; [by destruct (Job.p_delay upd)|].
      split; [by destruct (Job.p_timestamp upd)|].
      split; [by rewrite length_alter|].
      intros k Hk. by rewrite list_lookup_alter_ne.
    + intros Hnotin. apply has_id_absent, findIndex_None in Hnotin. congruence.
  - split; [|split].
    + intros other Hne. by rewrite queue_of_insert_ne.
    + intros Hin. apply existsb_has_id in Hin.
      apply findIndex_None in Hfind. congruence.
    + intros _. split; [done|]. split; [|split].
      * intros name. apply insert_queue_of_contents.
      * apply insert_queue_of_registered.
      * intros Hnone. unfold queue_of. by rewrite Hnone.
Qed.

(** C10, as the code has it. [getNextJob] returns the head of the queue,
    [None] exactly when the queue is empty, and changes the contents of
    no queue; the store is the same when the name was registered
    already, and otherwise gains that name with an empty queue. *)
Theorem getNextJob_reads_head (st : Store) (queueName : string) :
  let result := getNextJob queueName st in
  result.1 = head (queue_of st queueName) /\
  (result.1 = None <-> queue_of st queueName = []) /\
  (forall name, queue_of result.2 name = queue_of st name) /\
  (is_Some (st !! queueName) -> result.2 = st) /\
  (st !! queueName = None -> result.2 = <[queueName := []]> st).
Proof.
  cbv zeta. rewrite getNextJob_eq. cbn [fst snd].
  split; [by destruct (queue_of st queueName)|].
  split; [by destruct (queue_of st queueName)|].
  split; [intros name; apply insert_queue_of_contents|].
  split; [apply insert_queue_of_registered|].
  intros Hnone. unfold queue_of. by rewrite Hnone.
Qed.

End StoreProperties.

(** ** Invariant I1 of the store *)

Lemma ids_alter (f : Job.t -> Job.t) (q : list Job.t) (i : nat) :
  (forall job, q !! i = Some job -> Job.id (f job) = Job.id job) ->
  ids (alter f i q) = ids q.
Proof.
  revert i. induction q as [|a q IH]; intros [|i] Hf; simpl; [done..| |].
  - f_equal. by apply Hf.
  - f_equal. apply IH. intros job Hjob. by apply Hf.
Qed.

Lemma ids_delete (q : list Job.t) (i : nat) :
  ids (delete i q) = delete i (ids q).
Proof. apply list_fmap_delete. Qed.

Lemma NoDup_ids_delete (q : list Job.t) (i : nat) :
  NoDup (ids q) -> NoDup (ids (delete i q)).
Proof.
  intros Hnd. rewrite ids_delete.
  eapply sublist_NoDup; [exact Hnd|]. apply sublist_delete.
Qed.

Lemma unique_ids_empty : unique_ids ∅.
Proof.
  intros n. unfold queue_of. rewrite lookup_empty. simpl. constructor.
Qed.

Lemma unique_ids_insert (st : Store) (n : string) (q : list Job.t) :
  unique_ids st -> NoDup (ids q) -> unique_ids (<[n := q]> st).
Proof.
  intros Hst Hq m. rewrite queue_of_insert. case_decide; [done|apply Hst].
Qed.

Lemma unique_ids_register (st : Store) (n : string) :
  unique_ids st -> unique_ids (<[n := queue_of st n]> st).
Proof. intros Hst. apply unique_ids_insert; [done|apply Hst]. Qed.

Section StoreInvariant.

Context `{Hashing}.

Lemma addJob_unique_ids (n : string) (d : JobData.t) (r dl now : Z) (st : Store) :
  unique_ids st -> unique_ids (addJob n d r dl now st).
Proof.
  intros Hst. rewrite addJob_eq.
  destruct (existsb _ _) eqn:Hex; [by apply unique_ids_register|].
  apply unique_ids_insert; [done|].
  unfold ids. rewrite fmap_app. apply NoDup_app.
  split; [apply Hst|]. split; [|apply NoDup_singleton].
  intros x Hx Hx'. apply list_elem_of_singleton in Hx'. subst x.
  apply has_id_absent in Hex. by apply Hex.
Qed.

Lemma dequeueJob_unique_ids (n jobId : string) (st : Store) :
  unique_ids st -> unique_ids (dequeueJob n jobId st).
Proof.
  intros Hst. rewrite dequeueJob_eq.
  destruct (findIndex _ _); [|by apply unique_ids_register].
  apply unique_ids_insert; [done|]. apply NoDup_ids_delete, Hst.
Qed.

Lemma updateJob_unique_ids (n jobId : string) (upd : Job.partial) (st : Store) :
  keeps_id (OpUpdateJob n jobId upd) = true ->
  unique_ids st -> unique_ids (updateJob n jobId upd st).2.
Proof.
  intros Hkeep Hst. rewrite updateJob_eq.
  destruct (findIndex _ _) as [i|] eqn:Hfind; cbn [snd];
    [|by apply unique_ids_register].
  apply unique_ids_insert; [done|].
  rewrite ids_alter; [apply Hst|].
  intros job Hjob.
  destruct (findIndex_Some _ _ _ Hfind) as (job' & Hjob' & Hid & _).
  assert (job' = job) as -> by congruence.
  apply String.eqb_eq in Hid.
  unfold keeps_id in Hkeep. unfold Job.merge. simpl.
  destruct (Job.p_id upd) as [newId|]; simpl; [|done].
  apply String.eqb_eq in Hkeep. congruence.
Qed.

Lemma apply_op_unique_ids (st : Store) (op : Op) :
  keeps_id op = true -> unique_ids st -> unique_ids (apply_op st op).
Proof.
  intros Hkeep Hst. destruct op; simpl.
  - by apply addJob_unique_ids.
  - by apply dequeueJob_unique_ids.
  - by apply updateJob_unique_ids.
  - rewrite getNextJob_eq. by apply unique_ids_register.
  - rewrite hasJob_eq. by apply unique_ids_register.
Qed.

Lemma run_ops_preserves_unique_ids (ops : list Op) (st : Store) :
  forallb keeps_id ops = true -> unique_ids st -> unique_ids (run_ops ops st).
Proof.
  revert st. induction ops as [|op ops IH]; intros st Hkeep Hst; [done|].
  simpl in Hkeep. apply andb_true_iff in Hkeep as [Hop Hops].
  simpl. apply IH; [done|]. by apply apply_op_unique_ids.
Qed.

(** C8, as the code has it. Started on the empty store, every sequence of
    [addJob], [dequeueJob], [updateJob], [getNextJob] and [hasJob] in
    which no [updateJob] carries an [id] field other than the id it
    looks up leaves the ids of every queue pairwise distinct. *)
Theorem unique_ids_when_updates_keep_id (ops : list Op) :
  forallb keeps_id ops = true -> unique_ids (run_ops ops ∅).
Proof.
  intros Hkeep. apply run_ops_preserves_unique_ids; [done|].
  apply unique_ids_empty.
Qed.

End StoreInvariant.

(** ** One round of the loop *)

Section PassProperties.

Context `{Remote}.

(** Unfolds the combinators of a round down to matches on the store. *)
Ltac unfold_act :=
  repeat (progress (unfold process_index, tryCatch, bind, at_index, dispatch,
                      emit, decrement_at, call_dequeueJob, call_updateJob,
                      on_store, ret, throw;
                    cbn [queues world trace fst snd])).

(** A round whose remote call succeeds: the job is looked up by id and
    spliced out; the round raises when no job stands at [index] any more. *)
Lemma process_index_success (index : nat) (s : Sys) (job : Job.t) (w' : World) :
  queue_of (queues s) ETA_LIDER_TASK !! index = Some job ->
  perform (request_of (Job.data job)) (world s) = (None, w') ->
  process_index index s =
    let st' := dequeueJob ETA_LIDER_TASK (Job.id job) (queues s) in
    (match queue_of st' ETA_LIDER_TASK !! index with
     | Some _ => Normal tt
     | None => Throw TypeError
     end,
     {| queues := st'; world := w';
        trace := trace s ++ [EvDispatch job;
                             EvDequeueJob ETA_LIDER_TASK (Job.id job)] |}).
Proof.
  intros Hjob Hperf. unfold_act. rewrite Hjob, Hperf.
  cbn [queues world trace fst snd]. rewrite Hjob.
  cbn [queues world trace fst snd].
  rewrite <- app_assoc. cbn [app].
  destruct (queue_of (dequeueJob ETA_LIDER_TASK (Job.id job) (queues s))
              ETA_LIDER_TASK !! index) eqn:Hafter;
    cbn [queues world trace fst snd]; rewrite ?Hafter; reflexivity.
Qed.

(** A round whose remote call raises: the error is caught; the job keeps
    its place with one retry less while it has retries left, and is
    looked up by id and spliced out otherwise. *)
Lemma process_index_failure (index : nat) (s : Sys) (job : Job.t)
    (message : string) (w' : World) :
  queue_of (queues s) ETA_LIDER_TASK !! index = Some job ->
  perform (request_of (Job.data job)) (world s) = (Some message, w') ->
  process_index index s =
    (Normal tt,
     if 0 <? Job.retries job then
       let upd := Job.only_retries (Double.minus_one (Job.retries job)) in
       let decremented :=
         <[ETA_LIDER_TASK :=
             alter Job.decrement index (queue_of (queues s) ETA_LIDER_TASK)]>
           (queues s) in
       {| queues := (updateJob ETA_LIDER_TASK (Job.id job) upd decremented).2;
          world := w';
          trace := trace s ++ [EvDispatch job;
                               EvUpdateJob ETA_LIDER_TASK (Job.id job) upd] |}
     else
       {| queues := dequeueJob ETA_LIDER_TASK (Job.id job) (queues s);
          world := w';
          trace := trace s ++ [EvDispatch job;
                               EvDequeueJob ETA_LIDER_TASK (Job.id job)] |}).
Proof.
  intros Hjob Hperf. unfold_act. rewrite Hjob, Hperf.
  cbn [queues world trace fst snd]. rewrite Hjob.
  destruct (0 <? Job.retries job) eqn:Hretries.
  - unfold_act. rewrite Hjob. cbn [queues world trace fst snd].
    rewrite queue_of_insert_eq, list_lookup_alter_eq, Hjob.
    cbn [fmap option_fmap option_map Job.decrement Job.id Job.retries].
    cbn [queues world trace fst snd].
    destruct (updateJob ETA_LIDER_TASK (Job.id job)
                (Job.only_retries (Double.minus_one (Job.retries job))) _)
      as [found st2] eqn:Hupd.
    cbn [queues world trace fst snd].
    assert (Hlen : length (queue_of st2 ETA_LIDER_TASK)
                   = length (queue_of (queues s) ETA_LIDER_TASK)).
    { rewrite updateJob_eq in Hupd. rewrite queue_of_insert_eq in Hupd.
      destruct (findIndex _ _); injection Hupd as <- <-;
        rewrite queue_of_insert_eq, ?length_alter; done. }
    destruct (queue_of st2 ETA_LIDER_TASK !! index) eqn:Hafter.
    + rewrite <- app_assoc. reflexivity.
    + apply lookup_ge_None in Hafter. apply lookup_lt_Some in Hjob. lia.
  - unfold_act. rewrite Hjob. cbn [queues world trace fst snd].
    rewrite <- app_assoc. reflexivity.
Qed.

(** *** What a round leaves in the queue *)

Lemma queue_after_dequeue (jobId : string) (st : Store) :
  queue_of (dequeueJob ETA_LIDER_TASK jobId st) ETA_LIDER_TASK =
  match findIndex (Job.has_id jobId) (queue_of st ETA_LIDER_TASK) with
  | Some jobIndex => delete jobIndex (queue_of st ETA_LIDER_TASK)
  | None => queue_of st ETA_LIDER_TASK
  end.
Proof.
  rewrite dequeueJob_eq. destruct (findIndex _ _); apply queue_of_insert_eq.
Qed.

Lemma queue_after_retry (jobId : string) (n : Z) (index : nat) (st : Store) :
  let q1 := alter Job.decrement index (queue_of st ETA_LIDER_TASK) in
  queue_of (updateJob ETA_LIDER_TASK jobId (Job.only_retries n)
              (<[ETA_LIDER_TASK := q1]> st)).2 ETA_LIDER_TASK =
  match findIndex (Job.has_id jobId) q1 with
  | Some jobIndex => alter (Job.merge (Job.only_retries n)) jobIndex q1
  | None => q1
  end.
Proof.
  cbv zeta. rewrite updateJob_eq, queue_of_insert_eq.
  destruct (findIndex _ _); cbn [snd]; by rewrite queue_of_insert_eq.
Qed.

Lemma ids_after_retry (jobId : string) (n : Z) (index : nat) (st : Store) :
  ids (queue_of (updateJob ETA_LIDER_TASK jobId (Job.only_retries n)
                   (<[ETA_LIDER_TASK :=
                        alter Job.decrement index (queue_of st ETA_LIDER_TASK)]> st)).2
         ETA_LIDER_TASK)
  = ids (queue_of st ETA_LIDER_TASK).
Proof.
  rewrite queue_after_retry.
  destruct (findIndex _ _); rewrite ?ids_alter; done.
Qed.

Lemma ids_after_dequeue (jobId : string) (st : Store) :
  sublist (ids (queue_of (dequeueJob ETA_LIDER_TASK jobId st) ETA_LIDER_TASK))
          (ids (queue_of st ETA_LIDER_TASK)).
Proof.
  rewrite queue_after_dequeue. destruct (findIndex _ _); [|done].
  rewrite ids_delete. apply sublist_delete.
Qed.

(** A round never lengthens the queue, only dispatches the job standing
    at its index, and introduces no id. *)
Lemma process_index_step (index : nat) (s : Sys) (job : Job.t) :
  queue_of (queues s) ETA_LIDER_TASK !! index = Some job ->
  exists c s',
    process_index index s = (c, s') /\
    sublist (ids (queue_of (queues s') ETA_LIDER_TASK))
            (ids (queue_of (queues s) ETA_LIDER_TASK)) /\
    dispatched (trace s') = dispatched (trace s) ++ [job].
Proof.
  intros Hjob.
  assert (Hdisp : forall e,
    dispatched (trace s ++ [EvDispatch job; e]) =
    dispatched (trace s) ++ dispatched [EvDispatch job; e]).
  { intros e. unfold dispatched. by rewrite omap_app. }
  destruct (perform (request_of (Job.data job)) (world s))
    as [[message|] w'] eqn:Hperf.
  - rewrite (process_index_failure _ _ _ _ _ Hjob Hperf).
    eexists _, _. split; [reflexivity|].
    destruct (0 <? Job.retries job); cbn [queues trace].
    + split; [by rewrite ids_after_retry|]. by rewrite Hdisp.
    + split; [apply ids_after_dequeue|]. by rewrite Hdisp.
  - rewrite (process_index_success _ _ _ _ Hjob Hperf). cbv zeta.
    eexists _, _. split; [reflexivity|]. cbn [queues trace].
    split; [apply ids_after_dequeue|]. by rewrite Hdisp.
Qed.

(** *** The pass returns *)

Lemma loop_returns (fuel index : nat) (s : Sys) :
  (length (queue_of (queues s) ETA_LIDER_TASK) <= index + fuel)%nat ->
  is_Some (loop fuel index s).
Proof.
  revert index s. induction fuel as [|fuel IH]; intros index s Hlen; simpl.
  - destruct (index <? _)%nat eqn:Hlt; [|eauto].
    apply Nat.ltb_lt in Hlt. lia.
  - destruct (index <? _)%nat eqn:Hlt; [|eauto].
    apply Nat.ltb_lt in Hlt.
    destruct (lookup_lt_is_Some_2 _ _ Hlt) as [job Hjob].
    destruct (process_index_step _ _ _ Hjob) as (c & s' & -> & Hsub & _).
    destruct c; [|eauto].
    apply IH. apply sublist_length in Hsub. unfold ids in Hsub.
    rewrite !length_map in Hsub. lia.
Qed.

(** [processQueue] returns on every state: the fuel handed to the loop is
    never used up. *)
Lemma processQueue_returns (s : Sys) : is_Some (processQueue s).
Proof.
  unfold processQueue, on_store. rewrite getQueue_eq.
  destruct (length _ =? 0)%nat; [eauto|].
  apply loop_returns. cbn [queues]. rewrite queue_of_insert_eq. lia.
Qed.

(** *** An id that is not queued is not dispatched *)

Lemma loop_absent_id (jobId : string) (fuel index : nat) (s : Sys)
    (c : Completion unit) (s' : Sys) :
  jobId ∉ ids (queue_of (queues s) ETA_LIDER_TASK) ->
  jobId ∉ ids (dispatched (trace s)) ->
  loop fuel index s = Some (c, s') ->
  (jobId ∉ ids (queue_of (queues s') ETA_LIDER_TASK)) /\
  (jobId ∉ ids (dispatched (trace s'))).
Proof.
  revert index s. induction fuel as [|fuel IH]; intros index s Hq Htr; simpl.
  - destruct (index <? _)%nat; [done|]. by intros [= <- <-].
  - destruct (index <? _)%nat eqn:Hlt; [|by intros [= <- <-]].
    apply Nat.ltb_lt in Hlt.
    destruct (lookup_lt_is_Some_2 _ _ Hlt) as [job Hjob].
    destruct (process_index_step _ _ _ Hjob) as (c1 & s1 & -> & Hsub & Hdisp).
    assert (Hq1 : jobId ∉ ids (queue_of (queues s1) ETA_LIDER_TASK)).
    { intros Hin. apply Hq. by apply (sublist_subseteq _ _ Hsub). }
    assert (Htr1 : jobId ∉ ids (dispatched (trace s1))).
    { rewrite Hdisp. unfold ids. rewrite fmap_app.
      intros [Hin|Hin]%elem_of_app; [by apply Htr|].
      apply list_elem_of_singleton in Hin. apply Hq. rewrite Hin.
      apply list_elem_of_fmap. exists job. split; [done|].
      by eapply list_elem_of_lookup_2. }
    destruct c1; [by apply IH|]. by intros [= <- <-].
Qed.

Lemma run_pass_absent_id (jobId : string) (st : Store) (w : World)
    (c : Completion unit) (s' : Sys) :
  jobId ∉ ids (queue_of st ETA_LIDER_TASK) ->
  run_pass st w = Some (c, s') ->
  (jobId ∉ ids (queue_of (queues s') ETA_LIDER_TASK)) /\
  (jobId ∉ ids (dispatched (trace s'))).
Proof.
  intros Hq. unfold run_pass, processQueue, on_store. rewrite getQueue_eq.
  cbn [queues world trace].
  assert (Hnil : jobId ∉ ids (dispatched [])) by (cbn; apply not_elem_of_nil).
  destruct (length _ =? 0)%nat.
  - intros [= <- <-]. cbn [queues trace].
    by rewrite insert_queue_of_contents.
  - apply loop_absent_id; cbn [queues trace]; [|done].
    by rewrite insert_queue_of_contents.
Qed.

Lemma alter_as_insert {A} (f : A -> A) (l : list A) (i : nat) (x : A) :
  l !! i = Some x -> alter f i l = <[i := f x]> l.
Proof.
  revert i. induction l as [|a l IH]; intros [|i] Hx; simpl in *; try done.
  - by injection Hx as ->.
  - f_equal. by apply IH.
Qed.

Lemma NoDup_lookup_not_in_delete {A} (l : list A) (i : nat) (x : A) :
  NoDup l -> l !! i = Some x -> x ∉ delete i l.
Proof.
  intros Hnd Hx. apply delete_Permutation in Hx.
  rewrite Hx in Hnd. by apply NoDup_cons in Hnd as [? _].
Qed.

(** With distinct ids, the retry rewrites the job in its place. *)
Lemma retry_keeps_place (index : nat) (st : Store) (job : Job.t) :
  let q := queue_of st ETA_LIDER_TASK in
  q !! index = Some job ->
  NoDup (ids q) ->
  queue_of (updateJob ETA_LIDER_TASK (Job.id job)
              (Job.only_retries (Double.minus_one (Job.retries job)))
              (<[ETA_LIDER_TASK := alter Job.decrement index q]> st)).2
           ETA_LIDER_TASK
  = <[index := Job.decrement job]> q.
Proof.
  intros q Hjob Hnd. subst q. rewrite queue_after_retry. cbv zeta.
  set (q := queue_of st ETA_LIDER_TASK) in *.
  assert (Hdec : alter Job.decrement index q !! index
                 = Some (Job.decrement job))
    by (by rewrite list_lookup_alter_eq, Hjob).
  assert (Hfind : findIndex (Job.has_id (Job.id job))
                    (alter Job.decrement index q) = Some index).
  { apply (findIndex_unique _ _ (Job.decrement job)); [|done].
    by rewrite ids_alter. }
  rewrite Hfind, (alter_as_insert _ _ _ _ Hdec).
  rewrite (alter_as_insert _ _ _ _ Hjob), list_insert_insert_eq.
  reflexivity.
Qed.

(** With distinct ids, the removal by id takes the job out of its place. *)
Lemma drop_removes_place (index : nat) (st : Store) (job : Job.t) :
  let q := queue_of st ETA_LIDER_TASK in
  q !! index = Some job ->
  NoDup (ids q) ->
  queue_of (dequeueJob ETA_LIDER_TASK (Job.id job) st) ETA_LIDER_TASK
  = delete index q.
Proof.
  intros q Hjob Hnd. subst q.
  by rewrite queue_after_dequeue, (findIndex_unique _ _ _ Hnd Hjob).
Qed.

(** *** The delay field plays no part in a pass *)

Lemma queue_of_erase (st : Store) (n : string) :
  queue_of (erase_store st) n = map erase_delay (queue_of st n).
Proof.
  unfold queue_of, erase_store. rewrite lookup_fmap.
  by destruct (st !! n).
Qed.

Lemma erase_store_insert (st : Store) (n : string) (q : list Job.t) :
  erase_store (<[n := q]> st) = <[n := map erase_delay q]> (erase_store st).
Proof. unfold erase_store. by rewrite fmap_insert. Qed.

Lemma findIndex_erase (jobId : string) (q : list Job.t) :
  findIndex (Job.has_id jobId) (map erase_delay q)
  = findIndex (Job.has_id jobId) q.
Proof.
  induction q as [|a q IH]; simpl; [done|].
  unfold Job.has_id at 1 3. simpl. by rewrite IH.
Qed.

Lemma map_erase_delete (q : list Job.t) (i : nat) :
  map erase_delay (delete i q) = delete i (map erase_delay q).
Proof. apply list_fmap_delete. Qed.

Lemma map_erase_alter (f : Job.t -> Job.t) (q : list Job.t) (i : nat) :
  (forall job, erase_delay (f job) = f (erase_delay job)) ->
  map erase_delay (alter f i q) = alter f i (map erase_delay q).
Proof.
  intros Hf. apply list_fmap_alter. apply Forall_forall. intros; apply Hf.
Qed.

Lemma dequeueJob_erase (n jobId : string) (st : Store) :
  dequeueJob n jobId (erase_store st) = erase_store (dequeueJob n jobId st).
Proof.
  rewrite !dequeueJob_eq, queue_of_erase, findIndex_erase.
  destruct (findIndex _ _); by rewrite erase_store_insert, ?map_erase_delete.
Qed.

Lemma updateJob_retries_erase (n jobId : string) (k : Z) (st : Store) :
  updateJob n jobId (Job.only_retries k) (erase_store st)
  = ((updateJob n jobId (Job.only_retries k) st).1,
     erase_store (updateJob n jobId (Job.only_retries k) st).2).
Proof.
  rewrite !updateJob_eq, queue_of_erase, findIndex_erase.
  destruct (findIndex _ _); cbn [fst snd]; rewrite erase_store_insert; [|done].
  by rewrite map_erase_alter.
Qed.

Lemma lookup_erase (st : Store) (index : nat) :
  queue_of (erase_store st) ETA_LIDER_TASK !! index
  = erase_delay <$> queue_of st ETA_LIDER_TASK !! index.
Proof. rewrite queue_of_erase. apply list_lookup_fmap. Qed.

Lemma map_erase_event_snoc2 (tr : list Event) (e1 e2 : Event) :
  map erase_event (tr ++ [e1; e2])
  = map erase_event tr ++ [erase_event e1; erase_event e2].
Proof. by rewrite map_app. Qed.

(** Reading past the end raises in the [try] block and again in [catch]. *)
Lemma process_index_undefined (index : nat) (s : Sys) :
  queue_of (queues s) ETA_LIDER_TASK !! index = None ->
  process_index index s = (Throw TypeError, s).
Proof.
  intros Hnone. unfold_act. rewrite Hnone.
  cbn [queues world trace fst snd]. by rewrite Hnone.
Qed.

Lemma process_index_erase (index : nat) (s : Sys) :
  process_index index (erase_sys s) = erase_result (process_index index s).
Proof.
  destruct (queue_of (queues s) ETA_LIDER_TASK !! index) as [job|] eqn:Hjob.
  - assert (Hjob' : queue_of (queues (erase_sys s)) ETA_LIDER_TASK !! index
                    = Some (erase_delay job))
      by (cbn [erase_sys queues]; by rewrite lookup_erase, Hjob).
    destruct (perform (request_of (Job.data job)) (world s))
      as [[message|] w'] eqn:Hperf.
    + rewrite (process_index_failure _ _ _ _ _ Hjob Hperf).
      rewrite (process_index_failure _ _ (erase_delay job) message w' Hjob');
        [|exact Hperf].
      unfold erase_result. cbn [fst snd erase_delay Job.retries Job.id].
      f_equal.
      destruct (0 <? Job.retries job); unfold erase_sys;
        cbn [queues world trace erase_sys]; f_equal.
      * rewrite queue_of_erase, <- (map_erase_alter Job.decrement) by done.
        rewrite <- erase_store_insert. by rewrite updateJob_retries_erase.
      * by rewrite map_erase_event_snoc2.
      * apply dequeueJob_erase.
      * by rewrite map_erase_event_snoc2.
    + rewrite (process_index_success _ _ _ _ Hjob Hperf).
      rewrite (process_index_success _ _ (erase_delay job) w' Hjob');
        [|exact Hperf].
      unfold erase_result. cbv zeta. cbn [fst snd erase_delay Job.id].
      unfold erase_sys at 1 2 3. cbn [queues world trace].
      rewrite dequeueJob_erase, lookup_erase.
      f_equal.
      * by destruct (queue_of (dequeueJob ETA_LIDER_TASK (Job.id job) (queues s))
                       ETA_LIDER_TASK !! index).
      * unfold erase_sys. cbn [queues world trace].
        by rewrite map_erase_event_snoc2.
  - rewrite (process_index_undefined _ _ Hjob).
    apply process_index_undefined.
    cbn [erase_sys queues]. by rewrite lookup_erase, Hjob.
Qed.

Lemma loop_erase (fuel index : nat) (s : Sys) :
  loop fuel index (erase_sys s) = erase_result <$> loop fuel index s.
Proof.
  revert index s. induction fuel as [|fuel IH]; intros index s; simpl.
  - rewrite queue_of_erase, length_map.
    by destruct (index <? _)%nat.
  - rewrite queue_of_erase, length_map.
    destruct (index <? _)%nat; [|done].
    rewrite process_index_erase.
    destruct (process_index index s) as [[[]|e] s1]; cbn [erase_result fst snd].
    + apply IH.
    + done.
Qed.

Lemma processQueue_erase (s : Sys) :
  processQueue (erase_sys s) = erase_result <$> processQueue s.
Proof.
  unfold processQueue, on_store. rewrite !getQueue_eq.
  cbn [erase_sys queues world trace].
  rewrite queue_of_erase, length_map.
  destruct (length _ =? 0)%nat.
  - cbn. unfold erase_result, erase_sys. cbn [fst snd queues world trace].
    by rewrite erase_store_insert.
  - rewrite <- loop_erase. f_equal. unfold erase_sys. cbn [queues world trace].
    by rewrite erase_store_insert.
Qed.

(** C9. Two states that agree up to the delay fields of their jobs, run
    through a pass, both return; the passes complete alike and the
    resulting states agree up to the delay fields again: the same remote
    state, the same calls on the store and the same jobs dispatched in
    the same order, and the same queues. *)
Theorem delay_is_never_consulted (s1 s2 : Sys) :
  erase_sys s1 = erase_sys s2 ->
  exists r1 r2,
    processQueue s1 = Some r1 /\ processQueue s2 = Some r2 /\
    r1.1 = r2.1 /\ erase_sys r1.2 = erase_sys r2.2.
Proof.
  intros Heq.
  destruct (processQueue_returns s1) as [r1 Hr1].
  destruct (processQueue_returns s2) as [r2 Hr2].
  exists r1, r2. split; [done|]. split; [done|].
  pose proof (processQueue_erase s1) as H1.
  pose proof (processQueue_erase s2) as H2.
  rewrite Heq, H2, Hr1, Hr2 in H1. cbn [fmap option_fmap option_map] in H1.
  assert (Hres : erase_result r1 = erase_result r2) by congruence.
  split.
  - exact (f_equal fst Hres).
  - exact (f_equal snd Hres).
Qed.

End PassProperties.

(** ** Retries over successive passes *)

Section RetryScenario.

Context `{Hashing} `{Remote}.

(** A pass over a queue of one job whose remote call raises. *)
Lemma lone_job_failing_pass (st : Store) (w : World) (job : Job.t)
    (message : string) (w' : World) :
  queue_of st ETA_LIDER_TASK = [job] ->
  perform (request_of (Job.data job)) w = (Some message, w') ->
  exists s',
    run_pass st w = Some (Normal tt, s') /\
    world s' = w' /\
    queue_of (queues s') ETA_LIDER_TASK =
      if 0 <? Job.retries job then [Job.decrement job] else [].
Proof.
  intros Hq Hperf.
  unfold run_pass, processQueue, on_store. rewrite getQueue_eq.
  cbn [queues world trace]. rewrite Hq. cbn [length Nat.eqb loop].
  cbn [queues]. rewrite queue_of_insert_eq. cbn [length Nat.ltb Nat.leb].
  set (s0 := {| queues := <[ETA_LIDER_TASK := [job]]> st;
                world := w; trace := [] |}).
  assert (Hq0 : queue_of (queues s0) ETA_LIDER_TASK = [job])
    by apply queue_of_insert_eq.
  assert (Hjob : queue_of (queues s0) ETA_LIDER_TASK !! 0%nat = Some job)
    by (by rewrite Hq0).
  assert (Hnd : NoDup (ids (queue_of (queues s0) ETA_LIDER_TASK))).
  { rewrite Hq0. apply NoDup_singleton. }
  rewrite (process_index_failure _ _ _ _ _ Hjob Hperf).
  pose proof (retry_keeps_place _ _ _ Hjob Hnd) as Hretry.
  pose proof (drop_removes_place _ _ _ Hjob Hnd) as Hdrop.
  cbv zeta in Hretry, Hdrop.
  rewrite Hq0 in Hretry. rewrite Hq0 in Hdrop. rewrite Hq0.
  change (<[0%nat := Job.decrement job]> [job])
    with [Job.decrement job] in Hretry.
  change (delete 0%nat [job]) with (@nil Job.t) in Hdrop.
  destruct (0 <? Job.retries job); cbn [queues].
  - rewrite Hretry. cbn [length Nat.ltb Nat.leb].
    eexists. split; [reflexivity|]. split; [done|]. exact Hretry.
  - rewrite Hdrop. cbn [length Nat.ltb Nat.leb].
    eexists. split; [reflexivity|]. split; [done|]. exact Hdrop.
Qed.

(** C3, as the code has it. A job enqueued with three retries on the
    empty store, whose remote call raises whenever it is made, is in the
    queue with 2 retries after the first pass, with 1 after the second,
    with 0 after the third, and is gone after the fourth; every one of
    these passes completes normally. *)
Theorem three_retries_last_four_passes
    (jobData : JobData.t) (delay now : Z) (w0 : World) :
  (forall w, is_Some (perform (request_of jobData) w).1) ->
  let enqueued retries := createJob ETA_LIDER_TASK jobData retries delay now in
  let st0 := addJob ETA_LIDER_TASK jobData 3 delay now ∅ in
  exists s1 s2 s3 s4,
    run_pass st0 w0 = Some (Normal tt, s1) /\
    queue_of (queues s1) ETA_LIDER_TASK = [enqueued 2] /\
    run_pass (queues s1) (world s1) = Some (Normal tt, s2) /\
    queue_of (queues s2) ETA_LIDER_TASK = [enqueued 1] /\
    run_pass (queues s2) (world s2) = Some (Normal tt, s3) /\
    queue_of (queues s3) ETA_LIDER_TASK = [enqueued 0] /\
    run_pass (queues s3) (world s3) = Some (Normal tt, s4) /\
    queue_of (queues s4) ETA_LIDER_TASK = [].
Proof.
  intros Hfails enqueued st0.
  assert (Hstep : forall st w retries,
    0 <= retries <= 3 ->
    queue_of st ETA_LIDER_TASK = [enqueued retries] ->
    exists s', run_pass st w = Some (Normal tt, s') /\
               queue_of (queues s') ETA_LIDER_TASK =
                 if 0 <? retries then [enqueued (retries - 1)] else []).
  { intros st w retries Hsmall Hq.
    destruct (perform (request_of jobData) w) as [r w'] eqn:Hperf.
    pose proof (Hfails w) as [message Hmsg]. rewrite Hperf in Hmsg.
    cbn in Hmsg. subst r.
    destruct (lone_job_failing_pass st w (enqueued retries) message w' Hq Hperf)
      as (s' & Hrun & _ & Hq').
    exists s'. split; [done|]. rewrite Hq'.
    rewrite decrement_exact; [done|].
    unfold Double.exact_bound. change (2 ^ 53) with 9007199254740992.
    cbn [enqueued createJob Job.retries]. lia. }
  assert (Hq0 : queue_of st0 ETA_LIDER_TASK = [enqueued 3]).
  { subst st0. rewrite addJob_eq.
    assert (Hempty : queue_of ∅ ETA_LIDER_TASK = [])
      by (unfold queue_of; by rewrite lookup_empty).
    rewrite Hempty. cbn [existsb app]. apply queue_of_insert_eq. }
  destruct (Hstep st0 w0 3 ltac:(lia) Hq0) as (s1 & Hr1 & Hq1). cbn in Hq1.
  destruct (Hstep (queues s1) (world s1) 2 ltac:(lia) Hq1) as (s2 & Hr2 & Hq2). cbn in Hq2.
  destruct (Hstep (queues s2) (world s2) 1 ltac:(lia) Hq2) as (s3 & Hr3 & Hq3). cbn in Hq3.
  destruct (Hstep (queues s3) (world s3) 0 ltac:(lia) Hq3) as (s4 & Hr4 & Hq4). cbn in Hq4.
  exists s1, s2, s3, s4. repeat split; done.
Qed.

End RetryScenario.

(** ** What a removal does to the rest of the pass *)

Section RemovalDuringThePass.

Context `{Remote}.

(** A round completes normally or raises the [TypeError] of a read past
    the end; the error of the remote call never leaves it. *)
Lemma process_index_completion (index : nat) (s : Sys) :
  (process_index index s).1 = Normal tt \/
  (process_index index s).1 = Throw TypeError.
Proof.
  destruct (queue_of (queues s) ETA_LIDER_TASK !! index) as [job|] eqn:Hjob.
  - destruct (perform (request_of (Job.data job)) (world s))
      as [[message|] w'] eqn:Hperf.
    + rewrite (process_index_failure _ _ _ _ _ Hjob Hperf). by left.
    + rewrite (process_index_success _ _ _ _ Hjob Hperf). cbv zeta. cbn [fst].
      destruct (queue_of (dequeueJob ETA_LIDER_TASK (Job.id job) (queues s))
                  ETA_LIDER_TASK !! index); [by left|by right].
  - rewrite (process_index_undefined _ _ Hjob). by right.
Qed.

Lemma loop_completion (fuel index : nat) (s : Sys)
    (c : Completion unit) (s' : Sys) :
  loop fuel index s = Some (c, s') -> c = Normal tt \/ c = Throw TypeError.
Proof.
  revert index s. induction fuel as [|fuel IH]; intros index s; simpl.
  - destruct (index <? _)%nat; [done|]. intros [= <- _]. by left.
  - destruct (index <? _)%nat; [|intros [= <- _]; by left].
    pose proof (process_index_completion index s) as Hc.
    destruct (process_index index s) as [[[]|e] s1]; cbn [fst] in Hc.
    + apply IH.
    + intros [= <- _]. destruct Hc as [Hc|Hc]; [done|]. by right.
Qed.

(** No error of a remote call leaves [processQueue]. *)
Lemma remote_errors_stay_inside_the_pass (s : Sys)
    (c : Completion unit) (s' : Sys) (message : string) :
  processQueue s = Some (c, s') -> c <> Throw (RemoteOperationError message).
Proof.
  unfold processQueue, on_store. rewrite getQueue_eq.
  destruct (length _ =? 0)%nat.
  - by intros [= <- _].
  - intros Hloop. apply loop_completion in Hloop as [->| ->]; done.
Qed.

(** With distinct ids, a round deals with the job at its index and with
    no other: it takes the job out, or leaves it one retry less. *)
Lemma process_index_touches_its_place (index : nat) (s : Sys) (job : Job.t) :
  let q := queue_of (queues s) ETA_LIDER_TASK in
  q !! index = Some job ->
  NoDup (ids q) ->
  exists c s',
    process_index index s = (c, s') /\
    dispatched (trace s') = dispatched (trace s) ++ [job] /\
    (queue_of (queues s') ETA_LIDER_TASK = delete index q \/
     queue_of (queues s') ETA_LIDER_TASK = <[index := Job.decrement job]> q).
Proof.
  intros q Hjob Hnd. subst q.
  assert (Hdisp : forall e,
    dispatched (trace s ++ [EvDispatch job; e]) =
    dispatched (trace s) ++ dispatched [EvDispatch job; e]).
  { intros e. unfold dispatched. by rewrite omap_app. }
  destruct (perform (request_of (Job.data job)) (world s))
    as [[message|] w'] eqn:Hperf.
  - rewrite (process_index_failure _ _ _ _ _ Hjob Hperf).
    eexists _, _. split; [reflexivity|].
    destruct (0 <? Job.retries job); cbn [queues trace].
    + split; [by rewrite Hdisp|]. right. by apply retry_keeps_place.
    + split; [by rewrite Hdisp|]. left. by apply drop_removes_place.
  - rewrite (process_index_success _ _ _ _ Hjob Hperf). cbv zeta.
    eexists _, _. split; [reflexivity|]. cbn [queues trace].
    split; [by rewrite Hdisp|]. left. by apply drop_removes_place.
Qed.

Lemma loop_S (fuel index : nat) (s : Sys) :
  loop (S fuel) index s =
  if (index <? length (queue_of (queues s) ETA_LIDER_TASK))%nat then
    match process_index index s with
    | (Normal _, s') => loop fuel (S index) s'
    | (Throw e, s') => Some (Throw e, s')
    end
  else Some (Normal tt, s).
Proof. reflexivity. Qed.

Lemma ids_insert_same_id (q : list Job.t) (index : nat) (job job' : Job.t) :
  q !! index = Some job -> Job.id job' = Job.id job ->
  ids (<[index := job']> q) = ids q.
Proof.
  intros Hjob Hid. unfold ids. rewrite list_fmap_insert, Hid.
  apply list_insert_id. by rewrite list_lookup_fmap, Hjob.
Qed.

(** From index 1 on, the rounds leave the job at the front where it is
    and never dispatch it. *)
Lemma loop_leaves_the_front (front : Job.t) (fuel index : nat) (s : Sys)
    (c : Completion unit) (s' : Sys) :
  (1 <= index)%nat ->
  NoDup (ids (queue_of (queues s) ETA_LIDER_TASK)) ->
  queue_of (queues s) ETA_LIDER_TASK !! 0%nat = Some front ->
  Job.id front ∉ ids (dispatched (trace s)) ->
  loop fuel index s = Some (c, s') ->
  (Job.id front ∉ ids (dispatched (trace s'))) /\
  queue_of (queues s') ETA_LIDER_TASK !! 0%nat = Some front.
Proof.
  revert index s.
  induction fuel as [|fuel IH]; intros index s Hindex Hnd Hfront Htr; simpl.
  - destruct (index <? _)%nat; [done|]. by intros [= <- <-].
  - destruct (index <? _)%nat eqn:Hlt; [|by intros [= <- <-]].
    apply Nat.ltb_lt in Hlt.
    destruct (lookup_lt_is_Some_2 _ _ Hlt) as [job Hjob].
    destruct (process_index_touches_its_place _ _ _ Hjob Hnd)
      as (c1 & s1 & -> & Hdisp & Hq1).
    assert (Hother : Job.id job <> Job.id front).
    { intros Heq.
      assert (index = 0%nat); [|lia].
      apply (NoDup_lookup _ _ _ (Job.id front) Hnd); unfold ids;
        rewrite list_lookup_fmap; [by rewrite Hjob, <- Heq|by rewrite Hfront]. }
    assert (Htr1 : Job.id front ∉ ids (dispatched (trace s1))).
    { rewrite Hdisp. unfold ids. rewrite fmap_app.
      intros [Hin|Hin]%elem_of_app; [by apply Htr|].
      apply list_elem_of_singleton in Hin. by apply Hother. }
    assert (Hnd1 : NoDup (ids (queue_of (queues s1) ETA_LIDER_TASK))).
    { destruct Hq1 as [-> | ->]; [by apply NoDup_ids_delete|].
      by rewrite (ids_insert_same_id _ _ job). }
    assert (Hfront1 : queue_of (queues s1) ETA_LIDER_TASK !! 0%nat = Some front).
    { destruct Hq1 as [-> | ->].
      - rewrite list_lookup_delete_lt by lia. done.
      - rewrite list_lookup_insert_ne by lia. done. }
    destruct c1; [|by intros [= <- <-]].
    apply IH; [lia|done..].
Qed.

(** X15. Whenever the first job of a queue with distinct ids leaves the queue
    in its round (its call succeeds, or raises with no retry left), the
    second job is not dispatched in that pass and is at the front of
    the queue when the pass is over. *)
Lemma job_after_a_removed_one_is_skipped (st : Store) (w : World)
    (first second : Job.t) (rest : list Job.t)
    (c : Completion unit) (s' : Sys) :
  queue_of st ETA_LIDER_TASK = first :: second :: rest ->
  NoDup (ids (first :: second :: rest)) ->
  (perform (request_of (Job.data first)) w).1 = None \/ Job.retries first <= 0 ->
  run_pass st w = Some (c, s') ->
  (Job.id second ∉ ids (dispatched (trace s'))) /\
  queue_of (queues s') ETA_LIDER_TASK !! 0%nat = Some second.
Proof.
  intros Hq Hnd Hremoved.
  unfold run_pass, processQueue, on_store. rewrite getQueue_eq.
  cbn [queues world trace]. rewrite Hq. cbn [length Nat.eqb].
  rewrite loop_S. cbn [queues]. rewrite queue_of_insert_eq.
  cbn [length Nat.ltb Nat.leb].
  set (s0 := {| queues := <[ETA_LIDER_TASK := first :: second :: rest]> st;
                world := w; trace := [] |}).
  assert (Hq0 : queue_of (queues s0) ETA_LIDER_TASK = first :: second :: rest)
    by apply queue_of_insert_eq.
  assert (Hfirst : queue_of (queues s0) ETA_LIDER_TASK !! 0%nat = Some first)
    by (by rewrite Hq0).
  assert (Hnd0 : NoDup (ids (queue_of (queues s0) ETA_LIDER_TASK)))
    by (by rewrite Hq0).
  pose proof (drop_removes_place _ _ _ Hfirst Hnd0) as Hdrop.
  cbv zeta in Hdrop. rewrite Hq0 in Hdrop.
  change (delete 0%nat (first :: second :: rest)) with (second :: rest) in Hdrop.
  assert (Hnd1 : NoDup (ids (second :: rest))).
  { cbn in Hnd. by apply NoDup_cons in Hnd as [_ ?]. }
  assert (Hnew : Job.id second ∉ ids (dispatched [EvDispatch first;
                   EvDequeueJob ETA_LIDER_TASK (Job.id first)])).
  { cbn. intros Hin. apply list_elem_of_singleton in Hin.
    cbn in Hnd. apply NoDup_cons in Hnd as [Hnotin _]. apply Hnotin.
    rewrite <- Hin. apply list_elem_of_here. }
  destruct (perform (request_of (Job.data first)) w)
    as [[message|] w'] eqn:Hperf.
  - destruct Hremoved as [Hnone|Hretries]; [done|].
    rewrite (process_index_failure _ _ _ _ _ Hfirst Hperf).
    apply Z.ltb_ge in Hretries. rewrite Hretries.
    apply loop_leaves_the_front; cbn [queues trace]; rewrite ?Hdrop; done.
  - rewrite (process_index_success _ _ _ _ Hfirst Hperf). cbv zeta.
    rewrite Hdrop. cbn [lookup list_lookup].
    apply loop_leaves_the_front; cbn [queues trace]; rewrite ?Hdrop; done.
Qed.

End RemovalDuringThePass.

(** ** The pass on concrete queues *)

Section ConcreteRuns.

Import Demo.

(** C1. The pass walks the live array by index: on a queue holding A then
    B, both accepted by the remote system, A is dispatched and spliced
    out, B moves to index 0, and the loop, now at index 1 of an array of
    length 1, ends.  B was in the queue when the pass began, is never
    dispatched, and is still queued. *)
Theorem removal_makes_the_pass_skip_the_next_job :
  exists s,
    run_pass (H := rejecting []) (holding [jobA 3; jobB 3]) 0%nat
      = Some (Normal tt, s) /\
    dispatched (trace s) = [jobA 3] /\
    queue_of (queues s) ETA_LIDER_TASK = [jobB 3].
Proof. eexists. split; [vm_compute; reflexivity|]. by vm_compute. Qed.

(** C2. A has no retry left and is rejected, B would be accepted: after
    the pass the queue is not empty.  A was dropped, B moved to index 0
    and the loop ended without dispatching it. *)
Theorem dropped_job_shields_the_next_one :
  exists s,
    run_pass (H := rejecting [macA]) (holding [jobA 0; jobB 3]) 0%nat
      = Some (Normal tt, s) /\
    trace s = [EvDispatch (jobA 0);
               EvDequeueJob ETA_LIDER_TASK (Job.id (jobA 0))] /\
    queue_of (queues s) ETA_LIDER_TASK = [jobB 3].
Proof. eexists. split; [vm_compute; reflexivity|]. by vm_compute. Qed.

(** C6. Both jobs are rejected and neither has a retry left: the error
    of A is caught and A is dropped, but the job after it is not
    dispatched in this pass. *)
Theorem caught_error_still_costs_the_next_job_its_turn :
  exists s,
    run_pass (H := rejecting [macA; macB]) (holding [jobA 0; jobB 0]) 0%nat
      = Some (Normal tt, s) /\
    dispatched (trace s) = [jobA 0] /\
    queue_of (queues s) ETA_LIDER_TASK = [jobB 0].
Proof. eexists. split; [vm_compute; reflexivity|]. by vm_compute. Qed.

(** The claim C3 at a job with three retries that is always rejected:
    after the third pass the job is still queued, with no retry left. *)
Lemma third_failed_pass_keeps_the_job :
  ~ (queue_after (H := rejecting [macB]) 1 (holding [jobB 3]) 0%nat
       = Some [jobB 2] /\
     queue_after (H := rejecting [macB]) 2 (holding [jobB 3]) 0%nat
       = Some [jobB 1] /\
     queue_after (H := rejecting [macB]) 3 (holding [jobB 3]) 0%nat
       = Some []).
Proof. intros (_ & _ & Habsent). vm_compute in Habsent. discriminate. Qed.

Example always_rejected_job_pass_by_pass :
  map (fun n => queue_after (H := rejecting [macB]) n (holding [jobB 3]) 0%nat)
      [1; 2; 3; 4]%nat
  = [Some [jobB 2]; Some [jobB 1]; Some [jobB 0]; Some []].
Proof. by vm_compute. Qed.

(** The claim C7 at the empty store, where no job carries the id: the
    name asked for gets registered. *)
Lemma updateJob_registers_the_queue :
  ~ ((updateJob ETA_LIDER_TASK (Job.id (jobA 3)) (Job.only_retries 2) ∅).2 = ∅).
Proof.
  rewrite updateJob_eq.
  assert (Hempty : queue_of ∅ ETA_LIDER_TASK = [])
    by (unfold queue_of; by rewrite lookup_empty).
  rewrite Hempty. cbn [findIndex snd]. intros Heq.
  apply (f_equal (fun st : Store => st !! ETA_LIDER_TASK)) in Heq.
  by rewrite lookup_insert_eq, lookup_empty in Heq.
Qed.

(** The claim C10 at the empty store: the name asked for gets registered. *)
Lemma getNextJob_registers_the_queue :
  ~ ((getNextJob ETA_LIDER_TASK ∅).2 = ∅).
Proof.
  rewrite getNextJob_eq. cbn [snd]. intros Heq.
  apply (f_equal (fun st : Store => st !! ETA_LIDER_TASK)) in Heq.
  by rewrite lookup_insert_eq, lookup_empty in Heq.
Qed.

(** The claim C8 at two [addJob] and one [updateJob] whose partial fields
    carry the id of the other job: whatever the serializer and the
    digest, the queue ends with the same id twice. *)
Lemma updateJob_can_duplicate_an_id :
  ~ exists H : Hashing,
      unique_ids
        (run_ops
           [OpAddJob ETA_LIDER_TASK payloadA 3 0 1730000000000;
            OpAddJob ETA_LIDER_TASK payloadB 3 0 1730000000000;
            OpUpdateJob ETA_LIDER_TASK
              (generateJobId ETA_LIDER_TASK payloadB)
              {| Job.p_id := Some (generateJobId ETA_LIDER_TASK payloadA);
                 Job.p_data := None; Job.p_retries := None;
                 Job.p_delay := None; Job.p_timestamp := None |}]
           ∅).
Proof.
  intros [H Hunique]. specialize (Hunique ETA_LIDER_TASK). revert Hunique.
  set (idA := generateJobId ETA_LIDER_TASK payloadA).
  set (idB := generateJobId ETA_LIDER_TASK payloadB).
  assert (Hne : String.eqb idA idB = false) by reflexivity.
  assert (Hempty : queue_of ∅ ETA_LIDER_TASK = [])
    by (unfold queue_of; by rewrite lookup_empty).
  unfold run_ops. cbn [fold_left apply_op].
  rewrite (addJob_eq _ payloadA), Hempty. cbn [existsb app].
  rewrite (addJob_eq _ payloadB), queue_of_insert_eq.
  cbn [existsb]. unfold Job.has_id at 1. cbn [createJob Job.id].
  fold idA idB. rewrite Hne. cbn [orb app].
  rewrite updateJob_eq, queue_of_insert_eq. cbn [findIndex].
  unfold Job.has_id. cbn [createJob Job.id]. fold idA idB.
  rewrite Hne, String.eqb_refl. cbn [fmap option_fmap option_map snd].
  rewrite queue_of_insert_eq. cbn.
  fold idA. intros Hnd. apply NoDup_cons in Hnd as [Hnotin _].
  apply Hnotin. apply list_elem_of_singleton. reflexivity.
Qed.

(** *** The general theorems at concrete inputs *)

Lemma three_retries_last_four_passes_example :
  exists s1 s2 s3 s4 : Sys (H := rejecting [macB]),
    run_pass (H := rejecting [macB])
      (addJob (H := plain) ETA_LIDER_TASK payloadB 3 0 1730000000000 ∅) 0%nat
      = Some (Normal tt, s1) /\
    queue_of (queues s1) ETA_LIDER_TASK = [jobB 2] /\
    run_pass (queues s1) (world s1) = Some (Normal tt, s2) /\
    queue_of (queues s2) ETA_LIDER_TASK = [jobB 1] /\
    run_pass (queues s2) (world s2) = Some (Normal tt, s3) /\
    queue_of (queues s3) ETA_LIDER_TASK = [jobB 0] /\
    run_pass (queues s3) (world s3) = Some (Normal tt, s4) /\
    queue_of (queues s4) ETA_LIDER_TASK = [].
Proof.
  apply (three_retries_last_four_passes (H := plain) (H0 := rejecting [macB])
           payloadB 0 1730000000000 0%nat).
  intros w. cbn. eauto.
Defined.

Lemma unique_ids_when_updates_keep_id_example :
  unique_ids
    (run_ops (H := plain)
       [OpAddJob ETA_LIDER_TASK payloadA 3 0 1730000000000;
        OpAddJob ETA_LIDER_TASK payloadB 3 0 1730000000000;
        OpAddJob ETA_LIDER_TASK payloadA 1 500 1730000060000;
        OpUpdateJob ETA_LIDER_TASK (Job.id (jobB 3)) (Job.only_retries 2);
        OpHasJob "reports" (Job.id (jobA 3));
        OpGetNextJob ETA_LIDER_TASK;
        OpDequeueJob ETA_LIDER_TASK (Job.id (jobA 3))]
       ∅).
Proof.
  apply (unique_ids_when_updates_keep_id (H := plain)). reflexivity.
Defined.

Lemma delay_is_never_consulted_example :
  exists r1 r2,
    processQueue
      (at_start [macA] [job "a" payloadA 1 0; job "b" payloadB 3 0])
      = Some r1 /\
    processQueue
      (at_start [macA] [job "a" payloadA 1 60000; job "b" payloadB 3 250])
      = Some r2 /\
    r1.1 = r2.1 /\ erase_sys r1.2 = erase_sys r2.2.
Proof.
  apply (delay_is_never_consulted (H := rejecting [macA])). reflexivity.
Defined.

End ConcreteRuns.

(** * Further properties of the queue store *)

Lemma findIndex_present (jobId : string) (q : list Job.t) :
  jobId ∈ ids q -> is_Some (findIndex (Job.has_id jobId) q).
Proof.
  intros Hin. apply existsb_has_id in Hin.
  destruct (findIndex _ q) eqn:Hfind; [eauto|].
  apply findIndex_None in Hfind. congruence.
Qed.

Lemma findIndex_app_absent (jobId : string) (q : list Job.t) (job : Job.t) :
  jobId ∉ ids q -> Job.id job = jobId ->
  findIndex (Job.has_id jobId) (q ++ [job]) = Some (length q).
Proof.
  intros Hnotin Hid. induction q as [|a q IH]; simpl.
  - unfold Job.has_id. by rewrite Hid, String.eqb_refl.
  - assert (Ha : Job.has_id jobId a = false).
    { destruct (Job.has_id jobId a) eqn:Ha; [|done].
      apply String.eqb_eq in Ha. exfalso. apply Hnotin.
      rewrite <- Ha. cbn. apply list_elem_of_here. }
    rewrite Ha, IH; [done|].
    intros Hin. apply Hnotin. cbn. by apply list_elem_of_further.
Qed.

Lemma delete_last_of_app {A} (l : list A) (x : A) :
  delete (length l) (l ++ [x]) = l.
Proof. rewrite delete_middle. apply app_nil_r. Qed.

Section StoreOperations.

Context `{Hashing}.

(** X1. [dequeueJob] leaves every other queue alone.  When the id is in
    the queue, the first job carrying it is taken out and the jobs
    before and after it keep their order; the queue is one shorter.
    When the id is not in the queue, the contents of every queue are as
    before and the store is the same whenever the name was registered. *)
Theorem dequeueJob_removes_first_match
    (st : Store) (queueName jobId : string) :
  let q := queue_of st queueName in
  let st' := dequeueJob queueName jobId st in
  (forall other, other <> queueName ->
     queue_of st' other = queue_of st other) /\
  (jobId ∈ ids q ->
     exists index job,
       q !! index = Some job /\ Job.id job = jobId /\
       (forall k earlier, (k < index)%nat -> q !! k = Some earlier ->
          Job.id earlier <> jobId) /\
       queue_of st' queueName = take index q ++ drop (S index) q /\
       S (length (queue_of st' queueName)) = length q) /\
  (jobId ∉ ids q ->
     (forall name, queue_of st' name = queue_of st name) /\
     (is_Some (st !! queueName) -> st' = st)).
Proof.
  cbv zeta. rewrite dequeueJob_eq.
  destruct (findIndex (Job.has_id jobId) (queue_of st queueName))
    as [index|] eqn:Hfind.
  - split; [|split].
    + intros other Hne. by rewrite queue_of_insert_ne.
    + intros _.
      destruct (findIndex_Some _ _ _ Hfind) as (job & Hjob & Hid & Hfirst).
      exists index, job. rewrite queue_of_insert_eq.
      split; [done|]. split; [by apply String.eqb_eq|].
      split.
      { intros k earlier Hk Hearlier Heq.
        specialize (Hfirst k earlier Hk Hearlier).
        unfold Job.has_id in Hfirst. by rewrite Heq, String.eqb_refl in Hfirst. }
      split; [apply delete_take_drop|].
      rewrite length_delete by eauto.
      apply lookup_lt_Some in Hjob. lia.
    + intros Hnotin. apply has_id_absent, findIndex_None in Hnotin. congruence.
  - split; [|split].
    + intros other Hne. by rewrite queue_of_insert_ne.
    + intros Hin. apply findIndex_present in Hin as [? Hin]. congruence.
    + intros _. split.
      * intros name. apply insert_queue_of_contents.
      * apply insert_queue_of_registered.
Qed.

(** X2. On a queue with pairwise distinct ids, [dequeueJob] leaves no job
    with the id behind ([hasJob] answers [false] afterwards), and a
    second [dequeueJob] with the same id changes nothing. *)
Theorem dequeueJob_twice_is_dequeueJob_once
    (st : Store) (queueName jobId : string) :
  NoDup (ids (queue_of st queueName)) ->
  let st' := dequeueJob queueName jobId st in
  (jobId ∉ ids (queue_of st' queueName)) /\
  (hasJob queueName jobId st').1 = false /\
  dequeueJob queueName jobId st' = st'.
Proof.
  intros Hnd st'.
  assert (Hgone : jobId ∉ ids (queue_of st' queueName)).
  { subst st'. rewrite dequeueJob_eq.
    destruct (findIndex (Job.has_id jobId) (queue_of st queueName))
      as [index|] eqn:Hfind; rewrite queue_of_insert_eq.
    - destruct (findIndex_Some _ _ _ Hfind) as (job & Hjob & Hid & _).
      apply String.eqb_eq in Hid. subst jobId.
      rewrite ids_delete. apply NoDup_lookup_not_in_delete; [done|].
      unfold ids. by rewrite list_lookup_fmap, Hjob.
    - by apply has_id_absent, findIndex_None. }
  assert (Hreg : is_Some (st' !! queueName)).
  { subst st'. rewrite dequeueJob_eq.
    destruct (findIndex _ _); rewrite lookup_insert_eq; eauto. }
  split; [done|]. split.
  - rewrite hasJob_eq. cbn [fst]. by apply has_id_absent.
  - rewrite dequeueJob_eq.
    apply has_id_absent, findIndex_None in Hgone. rewrite Hgone.
    by apply insert_queue_of_registered.
Qed.

(** X3. A job added under an id the queue did not hold is found by
    [hasJob], and [dequeueJob] with that id undoes the [addJob]: the
    queue is as it was, and so is the whole store when the queue name
    was registered before. *)
Theorem addJob_then_dequeueJob
    (st : Store) (queueName : string) (jobData : JobData.t)
    (retries delay now : Z) :
  generateJobId queueName jobData ∉ ids (queue_of st queueName) ->
  let jobId := generateJobId queueName jobData in
  let st' := addJob queueName jobData retries delay now st in
  (hasJob queueName jobId st').1 = true /\
  queue_of (dequeueJob queueName jobId st') queueName = queue_of st queueName /\
  (is_Some (st !! queueName) -> dequeueJob queueName jobId st' = st).
Proof.
  intros Hnotin jobId st'. subst st'. fold jobId in Hnotin.
  pose proof Hnotin as Hex. apply has_id_absent in Hex.
  rewrite addJob_eq. fold jobId. rewrite Hex.
  set (job := createJob queueName jobData retries delay now).
  assert (Hfind : findIndex (Job.has_id jobId) (queue_of st queueName ++ [job])
                  = Some (length (queue_of st queueName)))
    by (by apply findIndex_app_absent).
  split; [|split].
  - rewrite hasJob_eq, queue_of_insert_eq. cbn [fst].
    apply existsb_has_id. unfold ids. rewrite fmap_app.
    apply elem_of_app. right. cbn. apply list_elem_of_here.
  - rewrite dequeueJob_eq, queue_of_insert_eq, Hfind, queue_of_insert_eq.
    apply delete_last_of_app.
  - intros Hreg.
    rewrite dequeueJob_eq, queue_of_insert_eq, Hfind, insert_insert_eq.
    rewrite delete_last_of_app. by apply insert_queue_of_registered.
Qed.

(** X4. [addJob] leaves every other queue alone and every job of its own
    queue in its place: a new job goes to the end, so the job that
    [getNextJob] returns for a non-empty queue is the same before and
    after. *)
Theorem addJob_appends_at_the_end
    (st : Store) (queueName : string) (jobData : JobData.t)
    (retries delay now : Z) :
  let q := queue_of st queueName in
  let st' := addJob queueName jobData retries delay now st in
  (forall other, other <> queueName ->
     queue_of st' other = queue_of st other) /\
  (generateJobId queueName jobData ∉ ids q ->
     queue_of st' queueName
       = q ++ [createJob queueName jobData retries delay now]) /\
  (forall index job, q !! index = Some job ->
     queue_of st' queueName !! index = Some job) /\
  (q <> [] -> (getNextJob queueName st').1 = (getNextJob queueName st).1).
Proof.
  cbv zeta. rewrite addJob_eq.
  assert (Hkeep : forall index job,
    queue_of st queueName !! index = Some job ->
    queue_of
      (if existsb (Job.has_id (generateJobId queueName jobData))
            (queue_of st queueName)
       then <[queueName := queue_of st queueName]> st
       else <[queueName := queue_of st queueName
                ++ [createJob queueName jobData retries delay now]]> st)
      queueName !! index = Some job).
  { intros index job Hjob.
    destruct (existsb _ _); rewrite queue_of_insert_eq; [done|].
    by apply lookup_app_l_Some. }
  split; [|split; [|split]].
  - intros other Hne. destruct (existsb _ _); by rewrite queue_of_insert_ne.
  - intros Hnotin. apply has_id_absent in Hnotin. rewrite Hnotin.
    apply queue_of_insert_eq.
  - exact Hkeep.
  - intros Hne. rewrite !getNextJob_eq. cbn [fst].
    destruct (queue_of st queueName) as [|front q] eqn:Hq; [done|].
    rewrite <- Hq in *. rewrite (Hkeep 0%nat front); by rewrite Hq.
Qed.

(** With the time of creation fixed per job, two [addJob] on different
    queue names give the same store in either order. *)
Lemma addJob_swap
    (st : Store) (name1 name2 : string) (data1 data2 : JobData.t)
    (retries1 delay1 now1 retries2 delay2 now2 : Z) :
  name1 <> name2 ->
  addJob name1 data1 retries1 delay1 now1
    (addJob name2 data2 retries2 delay2 now2 st)
  = addJob name2 data2 retries2 delay2 now2
      (addJob name1 data1 retries1 delay1 now1 st).
Proof.
  intros Hne.
  assert (Hframe : forall n m d r dl t (st0 : Store), n <> m ->
    queue_of (addJob n d r dl t st0) m = queue_of st0 m).
  { intros n m d r dl t st0 Hnm. rewrite addJob_eq.
    destruct (existsb _ _); by rewrite queue_of_insert_ne. }
  rewrite (addJob_eq name1 _ _ _ _ (addJob name2 _ _ _ _ _)).
  rewrite (addJob_eq name2 _ _ _ _ (addJob name1 _ _ _ _ _)).
  rewrite !Hframe by done.
  rewrite (addJob_eq name1 _ _ _ _ st), (addJob_eq name2 _ _ _ _ st).
  destruct (existsb (Job.has_id (generateJobId name1 data1)) (queue_of st name1));
    destruct (existsb (Job.has_id (generateJobId name2 data2)) (queue_of st name2));
    by rewrite insert_insert_ne.
Qed.

Lemma forget_timestamp_idemp (job : Job.t) :
  forget_timestamp (forget_timestamp job) = forget_timestamp job.
Proof. done. Qed.

Lemma queue_of_forget (st : Store) (n : string) :
  queue_of (forget_timestamps st) n = map forget_timestamp (queue_of st n).
Proof.
  unfold queue_of, forget_timestamps. rewrite lookup_fmap.
  by destruct (st !! n).
Qed.

Lemma existsb_has_id_forget (jobId : string) (q : list Job.t) :
  existsb (Job.has_id jobId) (map forget_timestamp q)
  = existsb (Job.has_id jobId) q.
Proof. induction q as [|a q IH]; [done|]. cbn [map existsb]. by rewrite IH. Qed.

Lemma forget_timestamps_insert (st : Store) (n : string) (q : list Job.t) :
  forget_timestamps (<[n := q]> st)
  = <[n := map forget_timestamp q]> (forget_timestamps st).
Proof. unfold forget_timestamps. by rewrite fmap_insert. Qed.

(** What [addJob] leaves, times of creation apart, depends on the time it
    reads and on the times in the store in no way. *)
Lemma addJob_forget (n : string) (d : JobData.t) (r dl t t' : Z) (st : Store) :
  forget_timestamps (addJob n d r dl t st)
  = forget_timestamps (addJob n d r dl t' (forget_timestamps st)).
Proof.
  rewrite !addJob_eq, queue_of_forget, existsb_has_id_forget.
  assert (Hidem : forget_timestamps (forget_timestamps st) = forget_timestamps st).
  { unfold forget_timestamps. rewrite <- map_fmap_compose.
    apply map_fmap_ext. intros name q _. cbn.
    rewrite <- list_fmap_compose. done. }
  assert (Hmap : forall q : list Job.t,
    map forget_timestamp (map forget_timestamp q) = map forget_timestamp q).
  { intros q. rewrite map_map. done. }
  destruct (existsb _ _); rewrite !forget_timestamps_insert, Hidem.
  - by rewrite Hmap.
  - by rewrite !map_app, Hmap.
Qed.

(** X5. Two [addJob] on different queue names, made in either order, give
    stores that hold the same jobs in the same queues up to the times of
    creation: the call made first reads the earlier time in both
    orders.  The two stores are the same when both calls read the same
    time. *)
Theorem addJob_on_different_queues_commute
    (st : Store) (name1 name2 : string) (data1 data2 : JobData.t)
    (retries1 delay1 retries2 delay2 first second : Z) :
  name1 <> name2 ->
  let one_then_two :=
    addJob name2 data2 retries2 delay2 second
      (addJob name1 data1 retries1 delay1 first st) in
  let two_then_one :=
    addJob name1 data1 retries1 delay1 second
      (addJob name2 data2 retries2 delay2 first st) in
  forget_timestamps one_then_two = forget_timestamps two_then_one /\
  (first = second -> one_then_two = two_then_one).
Proof.
  intros Hne one_then_two two_then_one. subst one_then_two two_then_one.
  split.
  - rewrite (addJob_forget name2 _ _ _ second 0).
    rewrite (addJob_forget name1 _ _ _ first 0).
    rewrite <- (addJob_forget name2 _ _ _ 0 0).
    rewrite (addJob_forget name1 _ _ _ second 0).
    rewrite (addJob_forget name2 _ _ _ first 0).
    rewrite <- (addJob_forget name1 _ _ _ 0 0).
    f_equal. symmetry. by apply addJob_swap.
  - intros <-. symmetry. by apply addJob_swap.
Qed.

(** X6. No operation of the store unregisters a queue: a name that is in
    the map stays in it through every sequence of operations, and each
    operation registers the name it is given. *)
Theorem queues_are_never_deleted (ops : list Op) (st : Store) (name : string) :
  (is_Some (st !! name) -> is_Some (run_ops ops st !! name)) /\
  (forall jobId upd,
     is_Some ((getQueue name st).2 !! name) /\
     is_Some (dequeueJob name jobId st !! name) /\
     is_Some ((updateJob name jobId upd st).2 !! name) /\
     is_Some ((hasJob name jobId st).2 !! name) /\
     is_Some ((getNextJob name st).2 !! name)).
Proof.
  split.
  - revert st. induction ops as [|op ops IH]; intros st Hreg; [done|].
    simpl. apply IH.
    destruct op; simpl.
    + rewrite addJob_eq. destruct (existsb _ _);
        apply lookup_insert_is_Some'; by right.
    + rewrite dequeueJob_eq. destruct (findIndex _ _);
        apply lookup_insert_is_Some'; by right.
    + rewrite updateJob_eq. destruct (findIndex _ _); cbn [snd];
        apply lookup_insert_is_Some'; by right.
    + rewrite getNextJob_eq. apply lookup_insert_is_Some'; by right.
    + rewrite hasJob_eq. apply lookup_insert_is_Some'; by right.
  - intros jobId upd.
    rewrite getQueue_eq, dequeueJob_eq, updateJob_eq, hasJob_eq, getNextJob_eq.
    cbn [snd]. repeat split.
    + rewrite lookup_insert_eq. eauto.
    + destruct (findIndex _ _); rewrite lookup_insert_eq; eauto.
    + destruct (findIndex _ _); cbn [snd]; rewrite lookup_insert_eq; eauto.
    + rewrite lookup_insert_eq. eauto.
    + rewrite lookup_insert_eq. eauto.
Qed.

End StoreOperations.

(** * Further properties of the processing pass *)

Lemma findIndex_le (q : list Job.t) (index k : nat) (job : Job.t) :
  q !! index = Some job ->
  findIndex (Job.has_id (Job.id job)) q = Some k ->
  (k <= index)%nat.
Proof.
  intros Hjob Hfind.
  destruct (findIndex_Some _ _ _ Hfind) as (_ & _ & _ & Hfirst).
  destruct (decide (k <= index)%nat) as [|Hgt]; [done|].
  specialize (Hfirst index job ltac:(lia) Hjob).
  unfold Job.has_id in Hfirst. by rewrite String.eqb_refl in Hfirst.
Qed.

Lemma drop_delete_le {A} (l : list A) (k index : nat) :
  (k <= index)%nat -> drop (S index) (delete k l) = drop (S (S index)) l.
Proof.
  revert k index. induction l as [|a l IH]; intros k index Hk; [done|].
  destruct k as [|k]; [done|].
  destruct index as [|index]; [lia|].
  cbn [delete list_delete drop]. apply IH. lia.
Qed.

Lemma sublist_drop_S {A} (l : list A) (n : nat) :
  sublist (drop (S n) l) (drop n l).
Proof.
  replace (S n) with (n + 1)%nat by lia. rewrite <- drop_drop.
  apply sublist_drop.
Qed.

Section PassBehaviour.

Context `{Remote}.

(** The part of the queue that lies after the index of a round is, after
    the round, a part of what it was before. *)
Lemma process_index_rest (index : nat) (s : Sys) (job : Job.t) :
  queue_of (queues s) ETA_LIDER_TASK !! index = Some job ->
  exists c s',
    process_index index s = (c, s') /\
    dispatched (trace s') = dispatched (trace s) ++ [job] /\
    sublist (drop (S index) (queue_of (queues s') ETA_LIDER_TASK))
            (drop (S index) (queue_of (queues s) ETA_LIDER_TASK)).
Proof.
  intros Hjob.
  set (q := queue_of (queues s) ETA_LIDER_TASK) in *.
  assert (Hdisp : forall e,
    dispatched (trace s ++ [EvDispatch job; e]) =
    dispatched (trace s) ++ dispatched [EvDispatch job; e]).
  { intros e. unfold dispatched. by rewrite omap_app. }
  assert (Hdeq : sublist
    (drop (S index)
       (queue_of (dequeueJob ETA_LIDER_TASK (Job.id job) (queues s))
          ETA_LIDER_TASK))
    (drop (S index) q)).
  { rewrite queue_after_dequeue. fold q.
    destruct (findIndex _ q) as [k|] eqn:Hfind; [|done].
    rewrite drop_delete_le by (by eapply findIndex_le).
    apply sublist_drop_S. }
  destruct (perform (request_of (Job.data job)) (world s))
    as [[message|] w'] eqn:Hperf.
  - rewrite (process_index_failure _ _ _ _ _ Hjob Hperf).
    eexists _, _. split; [reflexivity|].
    destruct (0 <? Job.retries job); cbn [queues trace].
    + split; [by rewrite Hdisp|].
      rewrite queue_after_retry. cbv zeta. fold q.
      assert (Hdec : alter Job.decrement index q !! index
                     = Some (Job.decrement job))
        by (by rewrite list_lookup_alter_eq, Hjob).
      destruct (findIndex _ (alter Job.decrement index q)) as [k|] eqn:Hfind.
      * assert (k <= index)%nat
          by (by apply (findIndex_le _ _ _ (Job.decrement job) Hdec)).
        rewrite !drop_alter_lt by lia. done.
      * rewrite drop_alter_lt by lia. done.
    + split; [by rewrite Hdisp|]. exact Hdeq.
  - rewrite (process_index_success _ _ _ _ Hjob Hperf). cbv zeta.
    eexists _, _. split; [reflexivity|]. cbn [queues trace].
    split; [by rewrite Hdisp|]. exact Hdeq.
Qed.

Lemma loop_dispatches_in_order (fuel index : nat) (s : Sys)
    (c : Completion unit) (s' : Sys) :
  loop fuel index s = Some (c, s') ->
  exists D,
    dispatched (trace s') = dispatched (trace s) ++ D /\
    sublist D (drop index (queue_of (queues s) ETA_LIDER_TASK)).
Proof.
  revert index s. induction fuel as [|fuel IH]; intros index s; simpl.
  - destruct (index <? _)%nat; [done|]. intros [= <- <-].
    exists []. split; [by rewrite app_nil_r|apply sublist_nil_l].
  - destruct (index <? _)%nat eqn:Hlt.
    2:{ intros [= <- <-]. exists [].
        split; [by rewrite app_nil_r|apply sublist_nil_l]. }
    apply Nat.ltb_lt in Hlt.
    destruct (lookup_lt_is_Some_2 _ _ Hlt) as [job Hjob].
    destruct (process_index_rest _ _ _ Hjob) as (c1 & s1 & -> & Hdisp & Hrest).
    rewrite (drop_S _ _ _ Hjob).
    destruct c1.
    + intros Hloop. destruct (IH _ _ Hloop) as (D & HD & Hsub).
      exists (job :: D). split.
      * rewrite HD, Hdisp, <- app_assoc. done.
      * apply sublist_skip. by etrans.
    + intros [= <- <-]. exists [job]. split; [done|].
      apply sublist_skip, sublist_nil_l.
Qed.

(** X7. A pass returns, and the jobs it dispatched, in the order of the
    calls, are a subsequence of the queue as the pass found it: jobs are
    taken by increasing position, none twice, and none that was not
    queued. *)
Theorem pass_dispatches_a_subsequence (st : Store) (w : World) :
  exists c s',
    run_pass st w = Some (c, s') /\
    sublist (dispatched (trace s')) (queue_of st ETA_LIDER_TASK).
Proof.
  destruct (processQueue_returns {| queues := st; world := w; trace := [] |})
    as [[c s'] Hrun].
  exists c, s'. split; [exact Hrun|].
  revert Hrun. unfold processQueue, on_store. rewrite getQueue_eq.
  cbn [queues world trace].
  destruct (length _ =? 0)%nat.
  - intros [= <- <-]. apply sublist_nil_l.
  - intros Hloop. apply loop_dispatches_in_order in Hloop as (D & HD & Hsub).
    cbn [queues trace] in HD, Hsub. rewrite queue_of_insert_eq in Hsub.
    rewrite HD. exact Hsub.
Qed.

(** *** What a pass leaves alone *)

Lemma process_index_frame (index : nat) (s : Sys) :
  forall c s', process_index index s = (c, s') ->
  (forall other, other <> ETA_LIDER_TASK ->
     queue_of (queues s') other = queue_of (queues s) other) /\
  sublist (ids (queue_of (queues s') ETA_LIDER_TASK))
          (ids (queue_of (queues s) ETA_LIDER_TASK)) /\
  (forall name, is_Some (queues s !! name) -> is_Some (queues s' !! name)) /\
  (unique_ids (queues s) -> unique_ids (queues s')).
Proof.
  intros c s'.
  assert (Hdeq : forall jobId,
    (forall other, other <> ETA_LIDER_TASK ->
       queue_of (dequeueJob ETA_LIDER_TASK jobId (queues s)) other
       = queue_of (queues s) other) /\
    (forall name, is_Some (queues s !! name) ->
       is_Some (dequeueJob ETA_LIDER_TASK jobId (queues s) !! name))).
  { intros jobId. rewrite dequeueJob_eq. split.
    - intros other Hne. destruct (findIndex _ _); by rewrite queue_of_insert_ne.
    - intros name Hreg. destruct (findIndex _ _);
        apply lookup_insert_is_Some'; by right. }
  destruct (queue_of (queues s) ETA_LIDER_TASK !! index) as [job|] eqn:Hjob.
  - destruct (perform (request_of (Job.data job)) (world s))
      as [[message|] w'] eqn:Hperf.
    + rewrite (process_index_failure _ _ _ _ _ Hjob Hperf).
      destruct (0 <? Job.retries job); intros [= <- <-]; cbn [queues].
      * split; [|split; [|split]].
        -- intros other Hne. rewrite updateJob_eq.
           destruct (findIndex _ _); cbn [snd];
             by rewrite !queue_of_insert_ne.
        -- by rewrite ids_after_retry.
        -- intros name Hreg. rewrite updateJob_eq.
           destruct (findIndex _ _); cbn [snd];
             apply lookup_insert_is_Some'; right;
             apply lookup_insert_is_Some'; by right.
        -- intros Hu. apply updateJob_unique_ids; [done|].
           apply unique_ids_insert; [done|].
           rewrite ids_alter; [apply Hu|done].
      * destruct (Hdeq (Job.id job)) as [Hother Hreg].
        split; [done|]. split; [apply ids_after_dequeue|].
        split; [done|]. apply dequeueJob_unique_ids.
    + rewrite (process_index_success _ _ _ _ Hjob Hperf). cbv zeta.
      intros [= <- <-]. cbn [queues].
      destruct (Hdeq (Job.id job)) as [Hother Hreg].
      split; [done|]. split; [apply ids_after_dequeue|].
      split; [done|]. apply dequeueJob_unique_ids.
  - rewrite (process_index_undefined _ _ Hjob). intros [= <- <-]. done.
Qed.

Lemma loop_frame (fuel index : nat) (s : Sys) (c : Completion unit) (s' : Sys) :
  loop fuel index s = Some (c, s') ->
  (forall other, other <> ETA_LIDER_TASK ->
     queue_of (queues s') other = queue_of (queues s) other) /\
  sublist (ids (queue_of (queues s') ETA_LIDER_TASK))
          (ids (queue_of (queues s) ETA_LIDER_TASK)) /\
  (forall name, is_Some (queues s !! name) -> is_Some (queues s' !! name)) /\
  (unique_ids (queues s) -> unique_ids (queues s')).
Proof.
  revert index s. induction fuel as [|fuel IH]; intros index s; simpl.
  - destruct (index <? _)%nat; [done|]. by intros [= <- <-].
  - destruct (index <? _)%nat; [|by intros [= <- <-]].
    destruct (process_index index s) as [c1 s1] eqn:Hround.
    destruct (process_index_frame _ _ _ _ Hround) as (Ho1 & Hs1 & Hr1 & Hu1).
    destruct c1.
    + intros Hloop. destruct (IH _ _ Hloop) as (Ho & Hs & Hr & Hu).
      split; [|split; [|split]].
      * intros other Hne. by rewrite Ho, Ho1.
      * by etrans.
      * auto.
      * auto.
    + by intros [= <- <-].
Qed.

(** X8. A pass works on the queue of the cron service only: the contents
    of every other queue are as before, no queue name is unregistered,
    and the ids left in its own queue are a subsequence of the ids it
    found, so that a pass neither adds a job nor changes the order of
    those that stay. *)
Theorem pass_touches_only_its_queue (st : Store) (w : World) :
  exists c s',
    run_pass st w = Some (c, s') /\
    (forall other, other <> ETA_LIDER_TASK ->
       queue_of (queues s') other = queue_of st other) /\
    (forall name, is_Some (st !! name) -> is_Some (queues s' !! name)) /\
    sublist (ids (queue_of (queues s') ETA_LIDER_TASK))
            (ids (queue_of st ETA_LIDER_TASK)).
Proof.
  destruct (processQueue_returns {| queues := st; world := w; trace := [] |})
    as [[c s'] Hrun].
  exists c, s'. split; [exact Hrun|].
  revert Hrun. unfold processQueue, on_store. rewrite getQueue_eq.
  cbn [queues world trace].
  destruct (length _ =? 0)%nat.
  - intros [= <- <-]. cbn [queues].
    split; [intros; apply insert_queue_of_contents|].
    split; [intros; apply lookup_insert_is_Some'; by right|].
    by rewrite insert_queue_of_contents.
  - intros Hloop. apply loop_frame in Hloop as (Ho & Hs & Hr & _).
    cbn [queues] in Ho, Hs, Hr.
    split; [|split].
    + intros other Hne. rewrite Ho by done. apply insert_queue_of_contents.
    + intros name Hreg. apply Hr. apply lookup_insert_is_Some'. by right.
    + by rewrite insert_queue_of_contents in Hs.
Qed.

(** X9. A pass keeps invariant I1: on a store whose queues have pairwise
    distinct ids, the store it leaves has them too. *)
Theorem pass_keeps_ids_distinct (st : Store) (w : World)
    (c : Completion unit) (s' : Sys) :
  unique_ids st ->
  run_pass st w = Some (c, s') ->
  unique_ids (queues s').
Proof.
  intros Hu. unfold run_pass, processQueue, on_store. rewrite getQueue_eq.
  cbn [queues world trace].
  destruct (length _ =? 0)%nat.
  - intros [= <- <-]. cbn [queues]. by apply unique_ids_register.
  - intros Hloop. apply loop_frame in Hloop as (_ & _ & _ & Hkeep).
    apply Hkeep. cbn [queues]. by apply unique_ids_register.
Qed.

(** X10. A pass returns, and it completes normally or by raising the
    [TypeError] of a read past the end of the queue: the error of a
    remote call is always caught inside the pass. *)
Theorem pass_raises_nothing_but_TypeError (s : Sys) :
  exists c s',
    processQueue s = Some (c, s') /\ (c = Normal tt \/ c = Throw TypeError).
Proof.
  destruct (processQueue_returns s) as [[c s'] Hrun].
  exists c, s'. split; [exact Hrun|].
  revert Hrun. unfold processQueue, on_store. rewrite getQueue_eq.
  destruct (length _ =? 0)%nat.
  - intros [= <- _]. by left.
  - apply loop_completion.
Qed.

(** X11. A round at [index], in a queue with pairwise distinct ids, whose
    remote call succeeds calls [dequeueJob]; the queue is as before
    without that position.  The round raises [TypeError] exactly when
    the job was the last of the queue, and completes normally
    otherwise. *)
Theorem accepted_job_is_removed (index : nat) (s : Sys)
    (job : Job.t) (w' : World) :
  queue_of (queues s) ETA_LIDER_TASK !! index = Some job ->
  NoDup (ids (queue_of (queues s) ETA_LIDER_TASK)) ->
  perform (request_of (Job.data job)) (world s) = (None, w') ->
  exists s',
    process_index index s =
      (if decide (S index = length (queue_of (queues s) ETA_LIDER_TASK))
       then Throw TypeError else Normal tt, s') /\
    world s' = w' /\
    trace s' = trace s ++
      [EvDispatch job; EvDequeueJob ETA_LIDER_TASK (Job.id job)] /\
    queue_of (queues s') ETA_LIDER_TASK
      = delete index (queue_of (queues s) ETA_LIDER_TASK).
Proof.
  intros Hjob Hnd Hperf.
  rewrite (process_index_success _ _ _ _ Hjob Hperf). cbv zeta.
  pose proof (drop_removes_place _ _ _ Hjob Hnd) as Hdrop. cbv zeta in Hdrop.
  rewrite Hdrop.
  set (q := queue_of (queues s) ETA_LIDER_TASK) in *.
  pose proof (lookup_lt_Some _ _ _ Hjob) as Hlt.
  assert (Hcompletion :
    match delete index q !! index with
    | Some _ => Normal tt
    | None => Throw TypeError
    end = if decide (S index = length q)
          then @Throw unit TypeError else Normal tt).
  { destruct (delete index q !! index) eqn:Hafter.
    - apply lookup_lt_Some in Hafter. rewrite length_delete in Hafter by eauto.
      by rewrite decide_False by lia.
    - apply lookup_ge_None in Hafter. rewrite length_delete in Hafter by eauto.
      by rewrite decide_True by lia. }
  rewrite Hcompletion. eexists. split; [reflexivity|].
  cbn [queues world trace]. by rewrite Hdrop.
Qed.

(** *** A pass in which every call is rejected, or every call accepted *)

Lemma insert_middle {A} (l1 l2 : list A) (x y : A) :
  <[length l1 := y]> (l1 ++ x :: l2) = l1 ++ y :: l2.
Proof.
  replace (length l1) with (length l1 + 0)%nat by lia.
  by rewrite insert_app_r.
Qed.

Lemma ids_map_decrement (q : list Job.t) :
  ids (map Job.decrement q) = ids q.
Proof. unfold ids. rewrite <- list_fmap_compose. done. Qed.

Lemma ids_app (q1 q2 : list Job.t) : ids (q1 ++ q2) = ids q1 ++ ids q2.
Proof. unfold ids. apply fmap_app. Qed.

Lemma dispatched_snoc_round (tr : list Event) (job : Job.t) (e : Event) :
  (forall j, e <> EvDispatch j) ->
  dispatched (tr ++ [EvDispatch job; e]) = dispatched tr ++ [job].
Proof.
  intros He. unfold dispatched. rewrite omap_app. f_equal. cbn.
  destruct e; [by destruct (He job0)|done..].
Qed.

Lemma loop_all_rejected (rest pre : list Job.t) (fuel : nat) (s : Sys) :
  queue_of (queues s) ETA_LIDER_TASK = map Job.decrement pre ++ rest ->
  NoDup (ids (pre ++ rest)) ->
  (length rest <= fuel)%nat ->
  (forall job, job ∈ rest ->
     0 < Job.retries job /\
     forall w, is_Some (perform (request_of (Job.data job)) w).1) ->
  exists s',
    loop fuel (length pre) s = Some (Normal tt, s') /\
    dispatched (trace s') = dispatched (trace s) ++ rest /\
    queue_of (queues s') ETA_LIDER_TASK = map Job.decrement (pre ++ rest).
Proof.
  revert pre fuel s.
  induction rest as [|a rest IH]; intros pre fuel s Hq Hnd Hfuel Hrej.
  - exists s. rewrite !app_nil_r in *. split; [|by split].
    assert (Hguard : (length pre
                      <? length (queue_of (queues s) ETA_LIDER_TASK))%nat = false).
    { rewrite Hq, length_map. apply Nat.ltb_ge. lia. }
    destruct fuel; simpl; by rewrite Hguard.
  - destruct fuel as [|fuel]; [cbn in Hfuel; lia|].
    rewrite loop_S.
    assert (Hguard : (length pre
                      <? length (queue_of (queues s) ETA_LIDER_TASK))%nat = true).
    { rewrite Hq, length_app, length_map. apply Nat.ltb_lt. cbn. lia. }
    rewrite Hguard.
    assert (Hjob : queue_of (queues s) ETA_LIDER_TASK !! length pre = Some a).
    { rewrite Hq. apply list_lookup_middle. by rewrite length_map. }
    assert (Hnds : NoDup (ids (queue_of (queues s) ETA_LIDER_TASK))).
    { by rewrite Hq, ids_app, ids_map_decrement, <- ids_app. }
    destruct (Hrej a ltac:(apply list_elem_of_here)) as [Hretries Hfails].
    destruct (perform (request_of (Job.data a)) (world s)) as [r w'] eqn:Hperf.
    pose proof (Hfails (world s)) as [message Hmsg]. rewrite Hperf in Hmsg.
    cbn in Hmsg. subst r.
    rewrite (process_index_failure _ _ _ _ _ Hjob Hperf).
    apply Z.ltb_lt in Hretries. rewrite Hretries.
    pose proof (retry_keeps_place _ _ _ Hjob Hnds) as Hretry.
    cbv zeta in Hretry.
    set (s1 := {| queues := _ |}).
    assert (Hq1 : queue_of (queues s1) ETA_LIDER_TASK
                  = map Job.decrement (pre ++ [a]) ++ rest).
    { subst s1. cbn [queues]. rewrite Hretry, Hq.
      replace (length pre) with (length (map Job.decrement pre))
        by apply length_map.
      rewrite insert_middle, map_app. cbn [map]. by rewrite <- app_assoc. }
    destruct (IH (pre ++ [a]) fuel s1 Hq1) as (s' & Hloop & Hdisp & Hq').
    + by rewrite <- app_assoc.
    + cbn in Hfuel. lia.
    + intros job Hin. apply Hrej. by apply list_elem_of_further.
    + exists s'. rewrite length_app in Hloop. cbn [length] in Hloop.
      rewrite Nat.add_1_r in Hloop. split; [exact Hloop|].
      rewrite <- app_assoc in Hq'. split; [|exact Hq'].
      rewrite Hdisp. subst s1. cbn [trace].
      rewrite dispatched_snoc_round by done. by rewrite <- app_assoc.
Qed.

(** X12. When the queue has pairwise distinct ids, every job in it has a
    retry left, and no more of them than [2^53], and every remote call
    about them is rejected, the pass completes normally, dispatches
    every job once in queue order, and leaves the queue as it was with
    the retries of every job lowered by exactly one. *)
Theorem all_rejected_pass_visits_every_job (st : Store) (w : World) :
  NoDup (ids (queue_of st ETA_LIDER_TASK)) ->
  (forall job, job ∈ queue_of st ETA_LIDER_TASK ->
     0 < Job.retries job <= Double.exact_bound /\
     forall w', is_Some (perform (request_of (Job.data job)) w').1) ->
  exists s',
    run_pass st w = Some (Normal tt, s') /\
    dispatched (trace s') = queue_of st ETA_LIDER_TASK /\
    queue_of (queues s') ETA_LIDER_TASK
      = map (fun job => with_retries (Job.retries job - 1) job)
            (queue_of st ETA_LIDER_TASK).
Proof.
  intros Hnd Hrej.
  assert (Hexact : map Job.decrement (queue_of st ETA_LIDER_TASK)
                   = map (fun job => with_retries (Job.retries job - 1) job)
                         (queue_of st ETA_LIDER_TASK)).
  { apply map_ext_in. intros job Hin. apply list_elem_of_In in Hin.
    destruct (Hrej job Hin) as [Hrange _]. apply decrement_exact.
    unfold Double.exact_bound in *. lia. }
  rewrite <- Hexact.
  unfold run_pass, processQueue, on_store. rewrite getQueue_eq.
  cbn [queues world trace].
  destruct (length (queue_of st ETA_LIDER_TASK) =? 0)%nat eqn:Hempty.
  - apply Nat.eqb_eq, nil_length_inv in Hempty.
    eexists. split; [reflexivity|]. cbn [queues trace].
    rewrite queue_of_insert_eq, Hempty. done.
  - apply (loop_all_rejected (queue_of st ETA_LIDER_TASK) []);
      cbn [queues]; [apply queue_of_insert_eq|done|lia|].
    intros job Hin. destruct (Hrej job Hin) as [Hrange Hfails].
    split; [lia|done].
Qed.

Lemma every_other_tail {A} (x : A) (l : list A) :
  every_other (x :: l) = x :: every_other (tail l).
Proof. by destruct l. Qed.

Lemma loop_all_accepted (fuel : nat) (pre rest : list Job.t) (s : Sys) :
  queue_of (queues s) ETA_LIDER_TASK = pre ++ rest ->
  NoDup (ids (pre ++ rest)) ->
  (length rest <= fuel)%nat ->
  (forall job, job ∈ rest ->
     forall w, (perform (request_of (Job.data job)) w).1 = None) ->
  exists s',
    loop fuel (length pre) s
      = Some (if Nat.odd (length rest) then Throw TypeError else Normal tt, s') /\
    dispatched (trace s') = dispatched (trace s) ++ every_other rest /\
    queue_of (queues s') ETA_LIDER_TASK = pre ++ every_other (tail rest).
Proof.
  revert pre rest s.
  induction fuel as [|fuel IH]; intros pre rest s Hq Hnd Hfuel Hacc.
  - destruct rest; [|cbn in Hfuel; lia].
    exists s. rewrite !app_nil_r in *. split; [|by split].
    simpl. rewrite Hq.
    assert (Hguard : (length pre <? length pre)%nat = false)
      by (apply Nat.ltb_ge; lia).
    by rewrite Hguard.
  - rewrite loop_S. destruct rest as [|a rest].
    + exists s. rewrite !app_nil_r in *. split; [|by split].
      rewrite Hq.
      assert (Hguard : (length pre <? length pre)%nat = false)
        by (apply Nat.ltb_ge; lia).
      by rewrite Hguard.
    + assert (Hguard : (length pre
                        <? length (queue_of (queues s) ETA_LIDER_TASK))%nat = true).
      { rewrite Hq, length_app. apply Nat.ltb_lt. cbn. lia. }
      rewrite Hguard.
      assert (Hjob : queue_of (queues s) ETA_LIDER_TASK !! length pre = Some a).
      { rewrite Hq. by apply list_lookup_middle. }
      assert (Hnds : NoDup (ids (queue_of (queues s) ETA_LIDER_TASK)))
        by (by rewrite Hq).
      destruct (perform (request_of (Job.data a)) (world s)) as [r w'] eqn:Hperf.
      pose proof (Hacc a ltac:(apply list_elem_of_here) (world s)) as Hnone.
      rewrite Hperf in Hnone. cbn in Hnone. subst r.
      rewrite (process_index_success _ _ _ _ Hjob Hperf). cbv zeta.
      pose proof (drop_removes_place _ _ _ Hjob Hnds) as Hdrop.
      cbv zeta in Hdrop. rewrite Hq, delete_middle in Hdrop.
      rewrite Hdrop.
      set (s1 := {| queues := _ |}).
      assert (Htr1 : dispatched (trace s1) = dispatched (trace s) ++ [a]).
      { subst s1. cbn [trace]. by apply dispatched_snoc_round. }
      destruct rest as [|b rest].
      * rewrite app_nil_r. rewrite lookup_ge_None_2 by lia.
        exists s1. split; [done|]. split; [done|].
        subst s1. cbn [queues]. by rewrite Hdrop.
      * rewrite list_lookup_middle by done.
        assert (Hq1 : queue_of (queues s1) ETA_LIDER_TASK = (pre ++ [b]) ++ rest).
        { subst s1. cbn [queues]. by rewrite Hdrop, <- app_assoc. }
        destruct (IH (pre ++ [b]) rest s1 Hq1) as (s' & Hloop & Hdisp & Hq').
        -- rewrite <- app_assoc. cbn [app].
           apply (sublist_NoDup _ _ Hnd). unfold ids. rewrite !fmap_app.
           apply sublist_app; [done|]. cbn. apply sublist_cons, sublist_skip.
           done.
        -- cbn in Hfuel. lia.
        -- intros job Hin. apply Hacc. by do 2 apply list_elem_of_further.
        -- exists s'. rewrite length_app in Hloop. cbn [length] in Hloop.
           rewrite Nat.add_1_r in Hloop. split; [exact Hloop|]. split.
           ++ rewrite Hdisp, Htr1, <- app_assoc. done.
           ++ rewrite Hq', <- app_assoc. cbn [app tail].
              by rewrite every_other_tail.
Qed.

(** X13. When the queue has pairwise distinct ids and every remote call
    about its jobs is accepted, the pass dispatches the jobs at
    positions 0, 2, 4, ... only and removes them; the jobs at positions
    1, 3, 5, ... are left in the queue, undispatched.  The pass raises
    [TypeError] when the queue held an odd number of jobs and completes
    normally otherwise. *)
Theorem all_accepted_pass_takes_every_other_job (st : Store) (w : World) :
  NoDup (ids (queue_of st ETA_LIDER_TASK)) ->
  (forall job, job ∈ queue_of st ETA_LIDER_TASK ->
     forall w', (perform (request_of (Job.data job)) w').1 = None) ->
  exists s',
    run_pass st w
      = Some (if Nat.odd (length (queue_of st ETA_LIDER_TASK))
              then Throw TypeError else Normal tt, s') /\
    dispatched (trace s') = every_other (queue_of st ETA_LIDER_TASK) /\
    queue_of (queues s') ETA_LIDER_TASK
      = every_other (tail (queue_of st ETA_LIDER_TASK)).
Proof.
  intros Hnd Hacc.
  unfold run_pass, processQueue, on_store. rewrite getQueue_eq.
  cbn [queues world trace].
  destruct (length (queue_of st ETA_LIDER_TASK) =? 0)%nat eqn:Hempty.
  - apply Nat.eqb_eq, nil_length_inv in Hempty.
    rewrite Hempty. cbn [length Nat.odd].
    eexists. split; [reflexivity|]. cbn [queues trace].
    by rewrite queue_of_insert_eq.
  - apply (loop_all_accepted _ [] (queue_of st ETA_LIDER_TASK));
      cbn [queues]; [apply queue_of_insert_eq|done|lia|done].
Qed.

(** *** Retries over any number of passes *)

Lemma queue_after_S (n : nat) (st : Store) (w : World) :
  queue_after (S n) st w =
  match run_pass st w with
  | Some (_, s') => queue_after n (queues s') (world s')
  | None => None
  end.
Proof.
  unfold queue_after. cbn [run_passes].
  by destruct (run_pass st w) as [[c s']|].
Qed.

Lemma queue_after_empty (n : nat) (st : Store) (w : World) :
  queue_of st ETA_LIDER_TASK = [] -> queue_after n st w = Some [].
Proof.
  revert st w. induction n as [|n IH]; intros st w Hq.
  - unfold queue_after. cbn. by rewrite Hq.
  - rewrite queue_after_S.
    unfold run_pass, processQueue, on_store. rewrite getQueue_eq.
    cbn [queues world trace]. rewrite Hq. cbn [length Nat.eqb].
    apply IH. cbn [queues]. apply queue_of_insert_eq.
Qed.

Lemma with_retries_same (job : Job.t) : with_retries (Job.retries job) job = job.
Proof. by destruct job. Qed.

Lemma dispatched_over_S (n : nat) (st : Store) (w : World) :
  dispatched_over (S n) st w =
  match run_pass st w with
  | Some (_, s') =>
      match dispatched_over n (queues s') (world s') with
      | Some later => Some (dispatched (trace s') ++ later)
      | None => None
      end
  | None => None
  end.
Proof. reflexivity. Qed.

Lemma dispatched_over_empty (n : nat) (st : Store) (w : World) :
  queue_of st ETA_LIDER_TASK = [] -> dispatched_over n st w = Some [].
Proof.
  revert st w. induction n as [|n IH]; intros st w Hq; [done|].
  rewrite dispatched_over_S.
  unfold run_pass, processQueue, on_store. rewrite getQueue_eq.
  cbn [queues world trace]. rewrite Hq. cbn [length Nat.eqb].
  rewrite IH; [done|]. cbn [queues]. apply queue_of_insert_eq.
Qed.

(** A pass over a queue of one job whose remote call raises dispatches
    that job, once. *)
Lemma lone_job_failing_pass_dispatch (st : Store) (w : World) (job : Job.t)
    (message : string) (w' : World) :
  queue_of st ETA_LIDER_TASK = [job] ->
  perform (request_of (Job.data job)) w = (Some message, w') ->
  exists s',
    run_pass st w = Some (Normal tt, s') /\
    dispatched (trace s') = [job] /\
    queue_of (queues s') ETA_LIDER_TASK =
      if 0 <? Job.retries job then [Job.decrement job] else [].
Proof.
  intros Hq Hperf.
  unfold run_pass, processQueue, on_store. rewrite getQueue_eq.
  cbn [queues world trace]. rewrite Hq. cbn [length Nat.eqb].
  rewrite loop_S.
  cbn [queues]. rewrite queue_of_insert_eq. cbn [length Nat.ltb Nat.leb].
  set (s0 := {| queues := <[ETA_LIDER_TASK := [job]]> st;
                world := w; trace := [] |}).
  assert (Hq0 : queue_of (queues s0) ETA_LIDER_TASK = [job])
    by apply queue_of_insert_eq.
  assert (Hjob : queue_of (queues s0) ETA_LIDER_TASK !! 0%nat = Some job)
    by (by rewrite Hq0).
  assert (Hnd : NoDup (ids (queue_of (queues s0) ETA_LIDER_TASK))).
  { rewrite Hq0. apply NoDup_singleton. }
  rewrite (process_index_failure _ _ _ _ _ Hjob Hperf).
  pose proof (retry_keeps_place _ _ _ Hjob Hnd) as Hretry.
  pose proof (drop_removes_place _ _ _ Hjob Hnd) as Hdrop.
  cbv zeta in Hretry, Hdrop.
  rewrite Hq0 in Hretry. rewrite Hq0 in Hdrop. rewrite Hq0.
  change (<[0%nat := Job.decrement job]> [job])
    with [Job.decrement job] in Hretry.
  change (delete 0%nat [job]) with (@nil Job.t) in Hdrop.
  destruct (0 <? Job.retries job).
  - set (s1 := {| queues := _ |}).
    assert (Hguard : (1 <? length (queue_of (queues s1) ETA_LIDER_TASK))%nat
                     = false)
      by (subst s1; cbn [queues]; by rewrite Hretry).
    exists s1. split; [cbn [loop]; by rewrite Hguard|].
    split; [done|]. exact Hretry.
  - set (s1 := {| queues := _ |}).
    assert (Hguard : (1 <? length (queue_of (queues s1) ETA_LIDER_TASK))%nat
                     = false)
      by (subst s1; cbn [queues]; by rewrite Hdrop).
    exists s1. split; [cbn [loop]; by rewrite Hguard|].
    split; [done|]. exact Hdrop.
Qed.

(** X14. A job alone in the queue, with [r] retries ([r] a natural number
    up to [2^53]), whose remote call is rejected whenever it is made, is
    still queued after each of the first [r] passes, with one retry less
    per pass, and the queue is empty after pass [r + 1] and after every
    later pass.  Over [n] passes the job is dispatched [min n (r + 1)]
    times, with [r], [r - 1], ... retries in turn: [r + 1] times in all
    once it is dropped. *)
Theorem retries_count_the_failed_passes (n r : nat) (job : Job.t)
    (st : Store) (w : World) :
  queue_of st ETA_LIDER_TASK = [job] ->
  Job.retries job = Z.of_nat r ->
  Z.of_nat r <= Double.exact_bound ->
  (forall w', is_Some (perform (request_of (Job.data job)) w').1) ->
  queue_after n st w =
    Some (if (n <=? r)%nat
          then [with_retries (Z.of_nat (r - n)) job]
          else []) /\
  dispatched_over n st w =
    Some (map (fun k => with_retries (Z.of_nat (r - k)) job)
              (seq 0 (Nat.min n (S r)))).
Proof.
  revert r job st w.
  induction n as [|n IH]; intros r job st w Hq Hr Hbound Hfails.
  - split; [|done].
    unfold queue_after. cbn [run_passes Nat.leb]. rewrite Hq.
    by rewrite Nat.sub_0_r, <- Hr, with_retries_same.
  - rewrite queue_after_S, dispatched_over_S.
    destruct (perform (request_of (Job.data job)) w) as [res w'] eqn:Hperf.
    pose proof (Hfails w) as [message Hmsg]. rewrite Hperf in Hmsg.
    cbn in Hmsg. subst res.
    destruct (lone_job_failing_pass_dispatch st w job message w' Hq Hperf)
      as (s' & -> & -> & Hq').
    assert (Hhead : with_retries (Z.of_nat (r - 0)) job = job)
      by (by rewrite Nat.sub_0_r, <- Hr, with_retries_same).
    destruct r as [|r].
    + rewrite Hr in Hq'. cbn in Hq'.
      rewrite (queue_after_empty _ _ _ Hq'), (dispatched_over_empty _ _ _ Hq').
      split; [done|]. replace (Nat.min (S n) 1) with 1%nat by lia.
      cbn [seq map app]. by rewrite Hhead.
    + assert (Hpos : (0 <? Job.retries job) = true)
        by (apply Z.ltb_lt; lia).
      rewrite Hpos in Hq'.
      rewrite decrement_exact in Hq'
        by (unfold Double.exact_bound in *; lia).
      replace (Job.retries job - 1) with (Z.of_nat r) in Hq' by lia.
      destruct (IH r (with_retries (Z.of_nat r) job) _ (world s') Hq')
        as [Hqueue Hdisp]; [done|lia|done|].
      rewrite Hqueue, Hdisp. split; [done|].
      f_equal. cbn [Nat.min seq map]. rewrite Hhead.
      change (Nat.min n (S r)) with (Nat.min n (S r)).
      f_equal. rewrite <- seq_shift, map_map. done.
Qed.

End PassBehaviour.

(** ** The further properties at concrete inputs *)

Lemma queue_of_holding (q : list Job.t) :
  queue_of (Demo.holding q) ETA_LIDER_TASK = q.
Proof. unfold queue_of, Demo.holding. by rewrite lookup_singleton_eq. Qed.

Lemma unique_ids_holding (q : list Job.t) :
  NoDup (ids q) -> unique_ids (Demo.holding q).
Proof.
  intros Hnd name. unfold queue_of, Demo.holding.
  destruct (decide (name = ETA_LIDER_TASK)) as [->|Hne].
  - by rewrite lookup_singleton_eq.
  - rewrite lookup_singleton_ne by done. constructor.
Qed.

(** Decides that the strings of a concrete list are pairwise distinct. *)
Ltac distinct_ids :=
  match goal with
  | |- NoDup ?l => apply (bool_decide_unpack (NoDup l)); vm_compute; exact I
  end.

Section FurtherRuns.

Import Demo.

Lemma dequeueJob_twice_example :
  (hasJob ETA_LIDER_TASK (Job.id (jobA 3))
     (dequeueJob ETA_LIDER_TASK (Job.id (jobA 3))
        (holding [jobA 3; jobB 3]))).1 = false /\
  dequeueJob ETA_LIDER_TASK (Job.id (jobA 3))
    (dequeueJob ETA_LIDER_TASK (Job.id (jobA 3)) (holding [jobA 3; jobB 3]))
  = dequeueJob ETA_LIDER_TASK (Job.id (jobA 3)) (holding [jobA 3; jobB 3]).
Proof.
  destruct (dequeueJob_twice_is_dequeueJob_once
              (holding [jobA 3; jobB 3]) ETA_LIDER_TASK (Job.id (jobA 3)))
    as (_ & Hhas & Htwice).
  - rewrite queue_of_holding. distinct_ids.
  - by split.
Defined.

Lemma addJob_then_dequeueJob_example :
  dequeueJob ETA_LIDER_TASK (generateJobId (H := plain) ETA_LIDER_TASK payloadB)
    (addJob (H := plain) ETA_LIDER_TASK payloadB 3 0 1730000000000
       (holding [jobA 3]))
  = holding [jobA 3].
Proof.
  destruct (addJob_then_dequeueJob (H := plain) (holding [jobA 3])
              ETA_LIDER_TASK payloadB 3 0 1730000000000)
    as (_ & _ & Hundo).
  - apply has_id_absent. rewrite queue_of_holding. reflexivity.
  - apply Hundo. unfold holding. rewrite lookup_singleton_eq. eauto.
Defined.

Lemma addJob_on_different_queues_commute_example :
  forget_timestamps
    (addJob (H := plain) "reports" payloadB 1 0 1730000000500
       (addJob (H := plain) ETA_LIDER_TASK payloadA 3 0 1730000000000 ∅))
  = forget_timestamps
      (addJob (H := plain) ETA_LIDER_TASK payloadA 3 0 1730000000500
         (addJob (H := plain) "reports" payloadB 1 0 1730000000000 ∅)).
Proof.
  apply (addJob_on_different_queues_commute (H := plain) ∅
           ETA_LIDER_TASK "reports" payloadA payloadB
           3 0 1 0 1730000000000 1730000000500).
  discriminate.
Defined.

Lemma pass_keeps_ids_distinct_example :
  exists c s',
    run_pass (H := rejecting [macA]) (holding [jobA 1; jobB 3]) 0%nat
      = Some (c, s') /\
    unique_ids (queues s').
Proof.
  destruct (processQueue_returns (at_start [macA] [jobA 1; jobB 3]))
    as [[c s'] Hrun].
  exists c, s'. split; [exact Hrun|].
  apply (pass_keeps_ids_distinct (H := rejecting [macA])
           (holding [jobA 1; jobB 3]) 0%nat c s'); [|exact Hrun].
  apply unique_ids_holding. distinct_ids.
Defined.

Lemma accepted_job_is_removed_example :
  exists s',
    process_index 1 (at_start [] [jobA 3; jobB 3]) = (Throw TypeError, s') /\
    queue_of (queues s') ETA_LIDER_TASK = [jobA 3].
Proof.
  destruct (accepted_job_is_removed (H := rejecting []) 1
              (at_start [] [jobA 3; jobB 3]) (jobB 3) 1%nat)
    as (s' & Hround & _ & _ & Hq).
  - reflexivity.
  - cbn [at_start queues]. rewrite queue_of_holding. distinct_ids.
  - reflexivity.
  - exists s'. split; [exact Hround|]. rewrite Hq. reflexivity.
Defined.

Lemma all_rejected_pass_example :
  exists s',
    run_pass (H := rejecting [macA; macB]) (holding [jobA 1; jobB 3]) 0%nat
      = Some (Normal tt, s') /\
    dispatched (trace s') = [jobA 1; jobB 3] /\
    queue_of (queues s') ETA_LIDER_TASK = [jobA 0; jobB 2].
Proof.
  destruct (all_rejected_pass_visits_every_job (H := rejecting [macA; macB])
              (holding [jobA 1; jobB 3]) 0%nat)
    as (s' & Hrun & Hdisp & Hq).
  - rewrite queue_of_holding. distinct_ids.
  - rewrite queue_of_holding. intros job Hin.
    apply elem_of_cons in Hin as [->|Hin];
      [|apply list_elem_of_singleton in Hin as ->];
      (split; [unfold Double.exact_bound; cbn; lia|intros w'; cbn; eauto]).
  - exists s'. split; [exact Hrun|].
    rewrite Hdisp, Hq, queue_of_holding. by split.
Defined.

Lemma all_accepted_pass_example :
  exists s',
    run_pass (H := rejecting []) (holding [jobA 3; jobB 3; jobC 0]) 0%nat
      = Some (Throw TypeError, s') /\
    dispatched (trace s') = [jobA 3; jobC 0] /\
    queue_of (queues s') ETA_LIDER_TASK = [jobB 3].
Proof.
  destruct (all_accepted_pass_takes_every_other_job (H := rejecting [])
              (holding [jobA 3; jobB 3; jobC 0]) 0%nat)
    as (s' & Hrun & Hdisp & Hq).
  - rewrite queue_of_holding. distinct_ids.
  - intros job _ w'. reflexivity.
  - exists s'. rewrite queue_of_holding in Hrun, Hdisp, Hq.
    split; [exact Hrun|]. by split.
Defined.

Lemma retries_count_the_failed_passes_example :
  queue_after (H := rejecting [macB]) 2 (holding [jobB 3]) 0%nat
    = Some [jobB 1] /\
  queue_after (H := rejecting [macB]) 7 (holding [jobB 3]) 0%nat
    = Some [] /\
  dispatched_over (H := rejecting [macB]) 7 (holding [jobB 3]) 0%nat
    = Some [jobB 3; jobB 2; jobB 1; jobB 0].
Proof.
  assert (Hat : forall n,
    queue_after (H := rejecting [macB]) n (holding [jobB 3]) 0%nat
      = Some (if (n <=? 3)%nat
              then [with_retries (Z.of_nat (3 - n)) (jobB 3)] else []) /\
    dispatched_over (H := rejecting [macB]) n (holding [jobB 3]) 0%nat
      = Some (map (fun k => with_retries (Z.of_nat (3 - k)) (jobB 3))
                  (seq 0 (Nat.min n 4)))).
  { intros n.
    apply (retries_count_the_failed_passes (H := rejecting [macB]) n 3 (jobB 3)).
    - apply queue_of_holding.
    - reflexivity.
    - unfold Double.exact_bound. cbn. lia.
    - intros w'. cbn. eauto. }
  split; [|split].
  - by rewrite (proj1 (Hat 2%nat)).
  - by rewrite (proj1 (Hat 7%nat)).
  - by rewrite (proj2 (Hat 7%nat)).
Defined.

Lemma job_after_a_removed_one_is_skipped_example :
  exists c s',
    run_pass (H := rejecting [macB]) (holding [jobA 3; jobB 0; jobC 2]) 0%nat
      = Some (c, s') /\
    (Job.id (jobB 0) ∉ ids (dispatched (trace s'))) /\
    queue_of (queues s') ETA_LIDER_TASK !! 0%nat = Some (jobB 0).
Proof.
  destruct (processQueue_returns (at_start [macB] [jobA 3; jobB 0; jobC 2]))
    as [[c s'] Hrun].
  exists c, s'. split; [exact Hrun|].
  apply (job_after_a_removed_one_is_skipped (H := rejecting [macB])
           (holding [jobA 3; jobB 0; jobC 2]) 0%nat
           (jobA 3) (jobB 0) [jobC 2] c s').
  - apply queue_of_holding.
  - distinct_ids.
  - left. reflexivity.
  - exact Hrun.
Defined.

End FurtherRuns.

(** * A failed dispatch, to the end of its pass *)

Section FailedDispatch.

Context `{Remote}.

(** With distinct ids, the rounds from [index] on leave every earlier
    position of the queue as it is. *)
Lemma loop_leaves_earlier_positions (k : nat) (kept : Job.t)
    (fuel index : nat) (s : Sys) (c : Completion unit) (s' : Sys) :
  (k < index)%nat ->
  NoDup (ids (queue_of (queues s) ETA_LIDER_TASK)) ->
  queue_of (queues s) ETA_LIDER_TASK !! k = Some kept ->
  loop fuel index s = Some (c, s') ->
  queue_of (queues s') ETA_LIDER_TASK !! k = Some kept.
Proof.
  revert index s.
  induction fuel as [|fuel IH]; intros index s Hk Hnd Hkept; simpl.
  - destruct (index <? _)%nat; [done|]. by intros [= <- <-].
  - destruct (index <? _)%nat eqn:Hlt; [|by intros [= <- <-]].
    apply Nat.ltb_lt in Hlt.
    destruct (lookup_lt_is_Some_2 _ _ Hlt) as [job Hjob].
    destruct (process_index_touches_its_place _ _ _ Hjob Hnd)
      as (c1 & s1 & -> & _ & Hq1).
    assert (Hnd1 : NoDup (ids (queue_of (queues s1) ETA_LIDER_TASK))).
    { destruct Hq1 as [-> | ->]; [by apply NoDup_ids_delete|].
      by rewrite (ids_insert_same_id _ _ job). }
    assert (Hkept1 : queue_of (queues s1) ETA_LIDER_TASK !! k = Some kept).
    { destruct Hq1 as [-> | ->].
      - rewrite list_lookup_delete_lt by lia. done.
      - rewrite list_lookup_insert_ne by lia. done. }
    destruct c1; [|by intros [= <- <-]].
    apply IH; [lia|done..].
Qed.

(** C4, as the code has it. Take a pass at the round of [index] (the
    pass from there to its end is [loop] at that index), in a queue with
    pairwise distinct ids, and let the remote call of that round raise.
    The round completes normally.  With retries left, and no more of
    them than [2^53], it calls [updateJob] with the retries lowered by
    exactly one, the job has one retry less in its place, and it stands
    there still when the pass ends.  Without retries left (the code
    tests "not greater than 0") it calls [dequeueJob]; the queue loses
    that position, the rest of the pass dispatches no job with that id,
    the id is not queued when the pass ends, and as long as it is not
    queued no later pass, from whatever store and remote state,
    dispatches it or brings it back. *)
Theorem failed_dispatch_retries_or_drops (fuel index : nat) (s : Sys)
    (job : Job.t) (message : string) (w' : World)
    (c : Completion unit) (s_end : Sys) :
  let q := queue_of (queues s) ETA_LIDER_TASK in
  q !! index = Some job ->
  NoDup (ids q) ->
  perform (request_of (Job.data job)) (world s) = (Some message, w') ->
  loop (S fuel) index s = Some (c, s_end) ->
  exists s',
    process_index index s = (Normal tt, s') /\
    world s' = w' /\
    (0 < Job.retries job <= Double.exact_bound ->
       trace s' = trace s ++
         [EvDispatch job;
          EvUpdateJob ETA_LIDER_TASK (Job.id job)
                      (Job.only_retries (Job.retries job - 1))] /\
       queue_of (queues s') ETA_LIDER_TASK
         = <[index := with_retries (Job.retries job - 1) job]> q /\
       queue_of (queues s_end) ETA_LIDER_TASK !! index
         = Some (with_retries (Job.retries job - 1) job)) /\
    (Job.retries job <= 0 ->
       trace s' = trace s ++
         [EvDispatch job; EvDequeueJob ETA_LIDER_TASK (Job.id job)] /\
       queue_of (queues s') ETA_LIDER_TASK = delete index q /\
       (exists later,
          dispatched (trace s_end) = dispatched (trace s) ++ job :: later /\
          Job.id job ∉ ids later) /\
       (Job.id job ∉ ids (queue_of (queues s_end) ETA_LIDER_TASK)) /\
       forall st w c2 s2,
         Job.id job ∉ ids (queue_of st ETA_LIDER_TASK) ->
         run_pass st w = Some (c2, s2) ->
         (Job.id job ∉ ids (queue_of (queues s2) ETA_LIDER_TASK)) /\
         (Job.id job ∉ ids (dispatched (trace s2)))).
Proof.
  intros q Hjob Hnd Hperf. subst q. rewrite loop_S.
  assert (Hlt : (index <? length (queue_of (queues s) ETA_LIDER_TASK))%nat = true)
    by (apply Nat.ltb_lt; by eapply lookup_lt_Some).
  rewrite Hlt, (process_index_failure _ _ _ _ _ Hjob Hperf).
  pose proof (retry_keeps_place index (queues s) job Hjob Hnd) as Hretry.
  pose proof (drop_removes_place index (queues s) job Hjob Hnd) as Hdrop.
  cbv zeta in Hretry, Hdrop.
  set (q := queue_of (queues s) ETA_LIDER_TASK) in *.
  destruct (0 <? Job.retries job) eqn:Hretries; cbv zeta; intros Hloop;
    (eexists; split; [reflexivity|]); cbn [queues world trace].
  - apply Z.ltb_lt in Hretries.
    split; [done|]. split; [|lia]. intros [_ Hbound].
    assert (Hexact : Double.minus_one (Job.retries job) = Job.retries job - 1)
      by (apply minus_one_exact; unfold Double.exact_bound in *; lia).
    assert (Hdec : Job.decrement job
                   = with_retries (Job.retries job - 1) job)
      by (apply decrement_exact; unfold Double.exact_bound in *; lia).
    rewrite Hdec in Hretry.
    split; [by rewrite Hexact|]. split; [exact Hretry|].
    eapply (loop_leaves_earlier_positions index); [| | |exact Hloop];
      cbn [queues].
    + lia.
    + rewrite Hretry. by rewrite (ids_insert_same_id _ _ job).
    + rewrite Hretry. apply list_lookup_insert_eq. by eapply lookup_lt_Some.
  - apply Z.ltb_ge in Hretries.
    split; [done|]. split; [lia|]. intros _. split; [done|].
    assert (Hgone : Job.id job ∉ ids (delete index q)).
    { rewrite ids_delete. apply NoDup_lookup_not_in_delete; [done|].
      unfold ids. by rewrite list_lookup_fmap, Hjob. }
    split; [exact Hdrop|]. split; [|split].
    + apply loop_dispatches_in_order in Hloop as (later & Hlater & Hsub).
      cbn [queues trace] in Hlater, Hsub. rewrite Hdrop in Hsub.
      exists later. split.
      * rewrite Hlater, dispatched_snoc_round by done.
        by rewrite <- app_assoc.
      * intros Hin. apply Hgone.
        assert (Hsub' : sublist (ids later) (ids (delete index q))).
        { unfold ids. apply (fmap_sublist Job.id). etrans; [exact Hsub|].
          apply sublist_drop. }
        by apply (sublist_subseteq _ _ Hsub').
    + apply loop_frame in Hloop as (_ & Hsub & _).
      cbn [queues] in Hsub. rewrite Hdrop in Hsub.
      intros Hin. apply Hgone. by apply (sublist_subseteq _ _ Hsub).
    + intros st w c2 s2. apply run_pass_absent_id.
Qed.

End FailedDispatch.

Section FailedDispatchRuns.

Import Demo.

(** The claim C4 at a retry count of [2^54], where [n - 1] is no double:
    [updateJob] is called with the count as it was. *)
Lemma huge_retry_count_is_not_lowered :
  ~ exists s',
      process_index 0 (at_start [macB] [jobB (2 ^ 54)]) = (Normal tt, s') /\
      trace s' =
        [EvDispatch (jobB (2 ^ 54));
         EvUpdateJob ETA_LIDER_TASK (Job.id (jobB (2 ^ 54)))
                     (Job.only_retries (2 ^ 54 - 1))].
Proof.
  intros (s' & Hround & Htrace). vm_compute in Hround.
  injection Hround as <-. vm_compute in Htrace. discriminate.
Qed.

(** What the round does there: the job keeps its count. *)
Example huge_retry_count_round :
  exists s',
    process_index 0 (at_start [macB] [jobB (2 ^ 54)]) = (Normal tt, s') /\
    trace s' =
      [EvDispatch (jobB (2 ^ 54));
       EvUpdateJob ETA_LIDER_TASK (Job.id (jobB (2 ^ 54)))
                   (Job.only_retries (2 ^ 54))] /\
    queue_of (queues s') ETA_LIDER_TASK = [jobB (2 ^ 54)].
Proof. eexists. split; [vm_compute; reflexivity|]. by vm_compute. Qed.

Lemma failed_dispatch_with_retries_left_example :
  exists c s_end,
    loop 2 0 (at_start [macB] [jobB 3; jobA 1]) = Some (c, s_end) /\
    queue_of (queues s_end) ETA_LIDER_TASK !! 0%nat = Some (jobB 2).
Proof.
  destruct (loop_returns (H := rejecting [macB]) 2 0
              (at_start [macB] [jobB 3; jobA 1])) as [[c s_end] Hloop].
  { cbn [at_start queues]. rewrite queue_of_holding. cbn. lia. }
  exists c, s_end. split; [exact Hloop|].
  destruct (failed_dispatch_retries_or_drops (H := rejecting [macB]) 1 0
              (at_start [macB] [jobB 3; jobA 1]) (jobB 3)
              "remote call failed" 1%nat c s_end)
    as (s' & _ & _ & Hretry & _).
  - reflexivity.
  - cbn [at_start queues]. rewrite queue_of_holding. distinct_ids.
  - reflexivity.
  - exact Hloop.
  - destruct Hretry as (_ & _ & Hend); [|exact Hend].
    unfold Double.exact_bound. cbn. lia.
Defined.

End FailedDispatchRuns.
